(** * KubeManifest custom-resource handler: a shallow embedding

    Source: functions/source/KubeManifest/lambda_function.py.

    - Python values are embedded as an inductive type; integers are
      unbounded, a float is kept as its binary64 bit pattern.
    - A Python [dict] is an association list in insertion order.
    - A Python [str] is a Rocq [string] whose characters are read as the
      code points 0..255.
    - A raised exception is the error side of a result type; [str(e)] is
      kept symbolic.
    - What the handler does to the outside (the kubeconfig fetch, the
      manifest file, the commands, the report) is recorded as a list of
      effects; what the outside answers is a parameter.  Printing and
      logging are left out, and so is the answer to the HTTP request of
      [send].
    - The watchdog timer and the main path are two interleaved threads. *)

From Stdlib Require Import String Ascii List ZArith Lia Bool Arith.
Import ListNotations.
Open Scope string_scope.
Open Scope Z_scope.
Open Scope list_scope.

(** ** Exceptions and the result monad *)

Inductive exn : Type :=
| Exception (msg : string)          (* raise Exception(msg) in the source *)
| KeyError (key : string)           (* d[key] on a dict without key *)
| IndexError                        (* list index out of range *)
| AttributeError (attr : string)    (* x.attr on an object without attr *)
| TypeError                         (* operation on a value of the wrong type *)
| ValueError (lit : string).        (* int(lit) on a malformed literal *)

Inductive exc (A : Type) : Type :=
| OK (a : A)
| Raise (e : exn).
Arguments OK {A} a.
Arguments Raise {A} e.

Definition bind {A B : Type} (m : exc A) (k : A -> exc B) : exc B :=
  match m with
  | OK a => k a
  | Raise e => Raise e
  end.

Notation "x <- m ;; k" := (bind m (fun x => k))
  (at level 61, m at next level, right associativity).

(** ** Characters and the [str] methods the source calls *)

Definition code (c : ascii) : nat := nat_of_ascii c.

Definition is_ascii_digit (c : ascii) : bool :=
  ((48 <=? code c) && (code c <=? 57))%nat.

(** [str.isdigit] per character: the decimal digits and, below 256, the
    superscripts U+00B2, U+00B3 and U+00B9. *)
Definition char_isdigit (c : ascii) : bool :=
  is_ascii_digit c
  || (code c =? 178)%nat || (code c =? 179)%nat || (code c =? 185)%nat.

(** [str.lower] per character: A..Z and the upper-case letters
    U+00C0..U+00DE (without the multiplication sign U+00D7) move by 32. *)
Definition char_lower (c : ascii) : ascii :=
  let n := code c in
  if ((65 <=? n) && (n <=? 90))%nat then ascii_of_nat (n + 32)
  else if ((192 <=? n) && (n <=? 222) && negb (n =? 215))%nat
       then ascii_of_nat (n + 32)
       else c.

Fixpoint str_forall (p : ascii -> bool) (s : string) : bool :=
  match s with
  | EmptyString => true
  | String c r => p c && str_forall p r
  end.

Fixpoint lower (s : string) : string :=
  match s with
  | EmptyString => EmptyString
  | String c r => String (char_lower c) (lower r)
  end.

Definition nonempty (s : string) : bool :=
  match s with EmptyString => false | _ => true end.

(** [s.isdigit()]: at least one character, and all of them digits. *)
Definition isdigit (s : string) : bool :=
  nonempty s && str_forall char_isdigit s.

Definition digit_val (c : ascii) : Z := Z.of_nat (code c) - 48.

Fixpoint decimal_acc (acc : Z) (s : string) : Z :=
  match s with
  | EmptyString => acc
  | String c r => decimal_acc (10 * acc + digit_val c) r
  end.

(** [int(s)] on a string for which [s.isdigit()] holds: the decimal value
    when every character is one of 0..9, and ValueError on the superscript
    digits, which [int] does not accept. *)
Definition py_int (s : string) : exc Z :=
  if nonempty s && str_forall is_ascii_digit s
  then OK (decimal_acc 0 s)
  else Raise (ValueError s).

(** ** Values *)

Unset Elimination Schemes.
Inductive value : Type :=
| VNone
| VBool (b : bool)
| VInt (z : Z)
| VFloat (bits : Z)                       (* the binary64 bit pattern *)
| VStr (s : string)
| VList (l : list value)
| VDict (d : list (string * value)).      (* items in insertion order *)
Set Elimination Schemes.

Section value_induction.
Variable P : value -> Prop.
Hypothesis HNone : P VNone.
Hypothesis HBool : forall b, P (VBool b).
Hypothesis HInt : forall z, P (VInt z).
Hypothesis HFloat : forall f, P (VFloat f).
Hypothesis HStr : forall s, P (VStr s).
Hypothesis HList : forall l, Forall P l -> P (VList l).
Hypothesis HDict : forall d, Forall (fun kv => P (snd kv)) d -> P (VDict d).

Fixpoint value_rect' (v : value) : P v :=
  match v with
  | VNone => HNone
  | VBool b => HBool b
  | VInt z => HInt z
  | VFloat f => HFloat f
  | VStr s => HStr s
  | VList l =>
      HList l ((fix go (l : list value) : Forall P l :=
                  match l with
                  | [] => Forall_nil _
                  | x :: r => Forall_cons x (value_rect' x) (go r)
                  end) l)
  | VDict d =>
      HDict d ((fix go (d : list (string * value))
                 : Forall (fun kv => P (snd kv)) d :=
                  match d with
                  | [] => Forall_nil _
                  | kv :: r => Forall_cons kv (value_rect' (snd kv)) (go r)
                  end) d)
  end.
End value_induction.

Definition is_scalar (v : value) : bool :=
  match v with
  | VList _ | VDict _ => false
  | _ => true
  end.

(** Python truth value, as tested by [if x:]. *)
Definition truthy (v : value) : bool :=
  match v with
  | VNone => false
  | VBool b => b
  | VInt z => negb (z =? 0)
  | VFloat bits => negb ((bits =? 0) || (bits =? 2 ^ 63))
  | VStr s => nonempty s
  | VList l => match l with [] => false | _ => true end
  | VDict d => match d with [] => false | _ => true end
  end.

(** ** Path addresses

    [traverse] extends a path by a key [k] or by the one-element list
    [[idx]]; [to_path] also produces the empty list as a placeholder. *)

Inductive seg : Type :=
| SKey (k : string)
| SList (l : list Z).

Definition path := list seg.

Fixpoint zlist_eqb (a b : list Z) : bool :=
  match a, b with
  | [], [] => true
  | x :: a', y :: b' => (x =? y) && zlist_eqb a' b'
  | _, _ => false
  end.

Definition seg_eqb (a b : seg) : bool :=
  match a, b with
  | SKey x, SKey y => String.eqb x y
  | SList x, SList y => zlist_eqb x y
  | _, _ => false
  end.

Fixpoint path_eqb (a b : path) : bool :=
  match a, b with
  | [], [] => true
  | x :: a', y :: b' => seg_eqb x y && path_eqb a' b'
  | _, _ => false
  end.

(** ** traverse, traverse_modify, traverse_modify_all *)

Definition callback := path -> value -> exc value.

Fixpoint traverse (obj : value) (p : path) (cb : option callback)
  : exc value :=
  let finish (value : value) :=
    match cb with
    | None => OK value
    | Some f => f p value
    end in
  match obj with
  | VDict d =>
      d' <- (fix items (d : list (string * value))
               : exc (list (string * value)) :=
               match d with
               | [] => OK []
               | (k, v) :: r =>
                   v' <- traverse v (p ++ [SKey k]) cb ;;
                   r' <- items r ;;
                   OK ((k, v') :: r')
               end) d ;;
      finish (VDict d')
  | VList l =>
      l' <- (fix elems (l : list value) (idx : Z) : exc (list value) :=
               match l with
               | [] => OK []
               | v :: r =>
                   v' <- traverse v (p ++ [SList [idx]]) cb ;;
                   r' <- elems r (idx + 1) ;;
                   OK (v' :: r')
               end) l 0 ;;
      finish (VList l')
  | _ => finish obj
  end.

Definition traverse_modify_all (obj : value) (action : value -> exc value)
  : exc value :=
  traverse obj [] (Some (fun _ value => action value)).

(** ** set_type and fix_types *)

Definition set_type (input_str : value) : exc value :=
  match input_str with
  | VStr s =>
      if String.eqb (lower s) "false" then OK (VBool false)
      else if String.eqb (lower s) "true" then OK (VBool true)
      else if isdigit s then (z <- py_int s ;; OK (VInt z))
      else OK input_str
  | _ => OK input_str
  end.

Definition fix_types (manifest : value) : exc value :=
  traverse_modify_all manifest set_type.

(** ** More [str] methods: split, strip, join, startswith *)

(** [s.split(sep)] for a one-character separator: never the empty list. *)
Fixpoint split_on (sep : ascii) (s : string) : list string :=
  match s with
  | EmptyString => [EmptyString]
  | String c r =>
      if Ascii.eqb c sep then EmptyString :: split_on sep r
      else match split_on sep r with
           | h :: t => String c h :: t
           | [] => [String c EmptyString]
           end
  end.

Fixpoint lstrip (ch : ascii) (s : string) : string :=
  match s with
  | EmptyString => EmptyString
  | String c r => if Ascii.eqb c ch then lstrip ch r else s
  end.

Fixpoint rstrip (ch : ascii) (s : string) : string :=
  match s with
  | EmptyString => EmptyString
  | String c r =>
      match rstrip ch r with
      | EmptyString => if Ascii.eqb c ch then EmptyString
                       else String c EmptyString
      | r' => String c r'
      end
  end.

(** [s.strip(ch)] for a one-character argument. *)
Definition strip (ch : ascii) (s : string) : string :=
  rstrip ch (lstrip ch s).

(** [sep.join(parts)]. *)
Fixpoint join (sep : string) (parts : list string) : string :=
  match parts with
  | [] => EmptyString
  | [x] => x
  | x :: r => (x ++ sep ++ join sep r)%string
  end.

Definition startswith (s pre : string) : bool := String.prefix pre s.

(** ** The regular expression [\[[0-9]+\]] of [to_path] *)

Fixpoint take_digits (s : string) : string * string :=
  match s with
  | EmptyString => (EmptyString, EmptyString)
  | String c r =>
      if is_ascii_digit c
      then let (ds, rest) := take_digits r in (String c ds, rest)
      else (EmptyString, s)
  end.

(** A match of the expression at the start of [s]: the matched text.
    The digit run is taken greedily; since a closing bracket is no digit,
    giving digits back never helps. *)
Definition match_index (s : string) : option string :=
  match s with
  | String "[" r =>
      match take_digits r with
      | (String d ds, String "]" _) =>
          Some (String "[" (String d ds ++ "]"))%string
      | _ => None
      end
  | _ => None
  end.

(** [re.findall]: the matches from left to right, without overlap.  [skip]
    counts the characters of the current match that are still to be passed
    over. *)
Fixpoint findall_from (s : string) (skip : nat) : list string :=
  match s with
  | EmptyString => []
  | String c r =>
      match skip with
      | S k => findall_from r k
      | O =>
          match match_index s with
          | Some m => m :: findall_from r (String.length m - 1)
          | None => findall_from r 0
          end
      end
  end.

Definition re_findall_index (s : string) : list string := findall_from s 0.

Definition cons_head (c : ascii) (pieces : list string) : list string :=
  match pieces with
  | h :: t => String c h :: t
  | [] => [String c EmptyString]
  end.

(** [re.split]: the text between the matches, one piece more than there
    are matches. *)
Fixpoint split_from (s : string) (skip : nat) : list string :=
  match s with
  | EmptyString => [EmptyString]
  | String c r =>
      match skip with
      | S k => split_from r k
      | O =>
          match match_index s with
          | Some m => EmptyString :: split_from r (String.length m - 1)
          | None => cons_head c (split_from r 0)
          end
      end
  end.

Definition re_split_index (s : string) : list string := split_from s 0.

(** ** to_path *)

(** [i[1:-1]]: without the first and the last character. *)
Fixpoint drop_last (s : string) : string :=
  match s with
  | EmptyString => EmptyString
  | String c EmptyString => EmptyString
  | String c r => String c (drop_last r)
  end.

Definition slice_1_m1 (i : string) : string :=
  match i with
  | EmptyString => EmptyString
  | String _ r => drop_last r
  end.

(** [int] on a run of the digits 0..9. *)
Definition int_digits (s : string) : Z := decimal_acc 0 s.

Fixpoint _iter_path (lists : list string) (indexes : list (list Z))
  : list seg :=
  match lists with
  | [] => []
  | piece :: rest =>
      map SKey (split_on "." (strip "." piece))
      ++ match indexes with
         | i :: indexes' => SList i :: _iter_path rest indexes'
         | [] => SList [] :: _iter_path rest []
         end
  end.

(** The argument of [to_path]: a string, or a list that is returned as
    it is. *)
Inductive target : Type :=
| TStr (s : string)
| TList (p : path).

Definition to_path (t : target) : path :=
  match t with
  | TList p => p
  | TStr s =>
      let indexes :=
        map (fun i => [int_digits (slice_1_m1 i)]) (re_findall_index s) in
      let lists := re_split_index s in
      removelast (_iter_path lists indexes)
  end.

Definition traverse_modify (obj : value) (target_path : target)
  (action : value -> exc value) : exc value :=
  let target_path := to_path target_path in
  let transformer (p : path) (value : value) :=
    if path_eqb p target_path then action value else OK value in
  traverse obj [] (Some transformer).

(** ** Dictionaries *)

Definition dict := list (string * value).

Fixpoint dict_get (k : string) (d : dict) : option value :=
  match d with
  | [] => None
  | (k', v) :: r => if String.eqb k k' then Some v else dict_get k r
  end.

(** [d[k] = v]: replaces the value of an existing key in place, appends a
    new key at the end. *)
Fixpoint dict_set (k : string) (v : value) (d : dict) : dict :=
  match d with
  | [] => [(k, v)]
  | (k', v') :: r =>
      if String.eqb k k' then (k', v) :: r else (k', v') :: dict_set k v r
  end.

Definition dict_has (k : string) (d : dict) : bool :=
  match dict_get k d with Some _ => true | None => false end.

(** [x.keys()], followed in the source by a membership test only. *)
Definition keys (x : value) : exc dict :=
  match x with
  | VDict d => OK d
  | _ => Raise (AttributeError "keys")
  end.

(** [x[k]] for a string [k]. *)
Definition getitem (x : value) (k : string) : exc value :=
  match x with
  | VDict d =>
      match dict_get k d with
      | Some v => OK v
      | None => Raise (KeyError k)
      end
  | _ => Raise TypeError
  end.

(** ** The request and its context *)

Record event : Type := {
  RequestType : string;
  Manifest : value;
  KubeConfigPath : string;
  KubeConfigKmsContext : value;
  PhysicalResourceId : option string;
  StackId : string;
  ResponseURL : string;
  RequestId : string;
  LogicalResourceId : string
}.

Record context : Type := {
  log_stream_name : string;
  remaining_time_in_millis : Z
}.

Definition SUCCESS : string := "SUCCESS".
Definition FAILED : string := "FAILED".

(** ** generate_name *)

Definition generate_name (ev : event) (physical_resource_id : value)
  : exc value :=
  let manifest := Manifest ev in
  stack_name <- match split_on "/" (StackId ev) with
                | _ :: x :: _ => OK x
                | _ => Raise IndexError
                end ;;
  ks <- keys manifest ;;
  if dict_has "metadata" ks then
    metadata <- getitem manifest "metadata" ;;
    mks <- keys metadata ;;
    if negb (dict_has "name" mks) && negb (dict_has "generateName" mks) then
      if truthy physical_resource_id then
        name <- match physical_resource_id with
                | VStr s => OK (last (split_on "/" s) EmptyString)
                | _ => Raise (AttributeError "split")
                end ;;
        OK (VDict (dict_set "metadata"
                     (VDict (dict_set "name" (VStr name) mks)) ks))
      else
        OK (VDict (dict_set "metadata"
                     (VDict (dict_set "generateName"
                               (VStr ("cfn-" ++ lower stack_name ++ "-")%string)
                               mks)) ks))
    else OK manifest
  else OK manifest.

(** ** build_output *)

Definition output_keys : list string :=
  ["uid"; "selfLink"; "resourceVersion"; "namespace"; "name"].

Fixpoint build_output_loop (kube_response : value) (ks : list string)
  (outp : dict) : exc dict :=
  match ks with
  | [] => OK outp
  | key :: rest =>
      metadata <- getitem kube_response "metadata" ;;
      mks <- keys metadata ;;
      if dict_has key mks then
        x <- getitem metadata key ;;
        build_output_loop kube_response rest (dict_set key x outp)
      else build_output_loop kube_response rest outp
  end.

Definition build_output (kube_response : value) : exc value :=
  outp <- build_output_loop kube_response output_keys [] ;;
  OK (VDict outp).

(** ** get_config_details *)

Definition get_config_details (ev : event)
  : exc (string * string * value) :=
  let s3_uri_parts := split_on "/" (KubeConfigPath ev) in
  if (length s3_uri_parts <? 4)%nat
     || negb (match firstn 2 s3_uri_parts with
              | [a; b] => String.eqb a "s3:" && String.eqb b EmptyString
              | _ => false
              end)
  then Raise (Exception
    "Invalid KubeConfigPath, must be in the format s3://bucket-name/path/to/config")
  else
    let bucket := nth 2 s3_uri_parts EmptyString in
    let key := join "/" (skipn 3 s3_uri_parts) in
    let kms_context := VDict [("QSContext", KubeConfigKmsContext ev)] in
    OK (bucket, key, kms_context).

(** ** The fallback-id expression of the Delete branch

    [^[0-9]{4}\/[0-9]{2}\/[0-9]{2}\/\[\$LATEST\][a-f0-9]{32}$], searched
    without flags: [^] is the start of the string, and [$] is its end or
    the position before a line feed that ends it. *)

Definition is_hex_lower (c : ascii) : bool :=
  is_ascii_digit c || ((97 <=? code c) && (code c <=? 102))%nat.

(** [n] characters of a class, then the rest. *)
Fixpoint eat_class (p : ascii -> bool) (n : nat) (s : string)
  : option string :=
  match n with
  | O => Some s
  | S n' =>
      match s with
      | String c r => if p c then eat_class p n' r else None
      | EmptyString => None
      end
  end.

Fixpoint eat_lit (lit s : string) : option string :=
  match lit with
  | EmptyString => Some s
  | String a lit' =>
      match s with
      | String c r => if Ascii.eqb a c then eat_lit lit' r else None
      | EmptyString => None
      end
  end.

Definition obind {A B : Type} (m : option A) (k : A -> option B)
  : option B :=
  match m with Some a => k a | None => None end.

(** The part of the expression between [^] and [$]: what is left of [s]
    after it. *)
Definition eat_fallback_id (s : string) : option string :=
  obind (eat_class is_ascii_digit 4 s) (fun s =>
  obind (eat_lit "/" s) (fun s =>
  obind (eat_class is_ascii_digit 2 s) (fun s =>
  obind (eat_lit "/" s) (fun s =>
  obind (eat_class is_ascii_digit 2 s) (fun s =>
  obind (eat_lit "/" s) (fun s =>
  obind (eat_lit "[$LATEST]" s) (fun s =>
  eat_class is_hex_lower 32 s))))))).

Definition line_feed : string := String (ascii_of_nat 10) EmptyString.

(** The fallback-id shape itself: the whole string is the pattern. *)
Definition fallback_id_shape (s : string) : bool :=
  match eat_fallback_id s with
  | Some rest => String.eqb rest EmptyString
  | None => false
  end.

(** [re.search(expression, x)] as a truth value; TypeError when [x] is no
    string. *)
Definition re_search_fallback_id (x : value) : exc bool :=
  match x with
  | VStr s =>
      match eat_fallback_id s with
      | Some rest =>
          OK (String.eqb rest EmptyString || String.eqb rest line_feed)
      | None => OK false
      end
  | _ => Raise TypeError
  end.

(** ** send and timeout *)

(** The text of the Reason field: the pointer to the log stream, or
    [str(e)] of the caught exception, which is kept symbolic. *)
Inductive reason_text : Type :=
| SeeLogStream (log_stream : string)
| StrOf (e : exn).

(** [str(e) == ''].  Of the exceptions above only [Exception('')] (a
    failed command without output) has an empty text. *)
Definition str_is_empty (e : exn) : bool :=
  match e with
  | Exception EmptyString => true
  | _ => false
  end.

Record response_body : Type := {
  Status : string;
  Reason : reason_text;
  BodyPhysicalResourceId : value;
  BodyStackId : string;
  BodyRequestId : string;
  BodyLogicalResourceId : string;
  Data : option value
}.

(** [send] builds the body and puts it to the response URL; the body is
    the observable part.  [reason] is the caught exception, if any. *)
Definition send (ev : event) (ctx : context) (response_status : string)
  (response_data : value) (physical_resource_id : value)
  (reason : option exn) : response_body :=
  {| Status := response_status;
     Reason :=
       match reason with
       | Some e => if str_is_empty e then SeeLogStream (log_stream_name ctx)
                   else StrOf e
       | None => SeeLogStream (log_stream_name ctx)
       end;
     BodyPhysicalResourceId :=
       if truthy physical_resource_id then physical_resource_id
       else match PhysicalResourceId ev with
            | Some p => VStr p
            | None => VStr (log_stream_name ctx)
            end;
     BodyStackId := StackId ev;
     BodyRequestId := RequestId ev;
     BodyLogicalResourceId := LogicalResourceId ev;
     Data :=
       match response_data with
       | VDict (_ :: _) => Some response_data
       | _ => None
       end |}.

Definition timeout (ev : event) (ctx : context) : response_body :=
  send ev ctx FAILED (VDict []) VNone None.

(** ** The outside world

    What the handler does to the outside is recorded as a list of effects;
    what the outside answers is given by a [world]. *)

Inductive effect : Type :=
| ECreateKubeconfig (bucket key : string) (kms_context : value)
| EWriteManifest (manifest : value) (file : string)
| ERunCommand (command : string)
| ESend (body : response_body).

Record world : Type := {
  (* os.environ.get("PATH") *)
  environ_PATH : option string;
  (* the outcome of create_kubeconfig: the S3 fetch and the KMS decrypt *)
  create_kubeconfig : string -> string -> value -> exc unit;
  (* the outcome of run_command: the output of the command, or the
     exception it raises *)
  run_command : string -> exc string;
  (* json.loads *)
  json_loads : string -> exc value
}.

(** ** lambda_handler: the main path

    The local variables that [send] reads in the [finally] block, and the
    effects so far, are threaded through the [try] body; an exception
    leaves them as they are at that point. *)

Record locals : Type := {
  response_data : value;
  physical_resource_id : value;
  effects : list effect
}.

Definition M (A : Type) : Type := locals -> exc A * locals.

Definition ret {A : Type} (a : A) : M A := fun s => (OK a, s).

Definition bindM {A B : Type} (m : M A) (k : A -> M B) : M B :=
  fun s =>
    match m s with
    | (OK a, s') => k a s'
    | (Raise e, s') => (Raise e, s')
    end.

Notation "x <~ m ;; k" := (bindM m (fun x => k))
  (at level 61, m at next level, right associativity).

Definition lift {A : Type} (m : exc A) : M A := fun s => (m, s).

Definition emit (e : effect) : M unit :=
  fun s => (OK tt, {| response_data := response_data s;
                      physical_resource_id := physical_resource_id s;
                      effects := effects s ++ [e] |}).

Definition set_response_data (v : value) : M unit :=
  fun s => (OK tt, {| response_data := v;
                      physical_resource_id := physical_resource_id s;
                      effects := effects s |}).

Definition set_physical_resource_id (v : value) : M unit :=
  fun s => (OK tt, {| response_data := response_data s;
                      physical_resource_id := v;
                      effects := effects s |}).

Definition get_physical_resource_id : M value :=
  fun s => (OK (physical_resource_id s), s).

Definition when (b : bool) (m : M unit) : M unit :=
  if b then m else ret tt.

Definition manifest_file : string := "/tmp/manifest.json".

Definition do_run_command (w : world) (command : string) : M string :=
  _ <~ emit (ERunCommand command) ;;
  lift (run_command w command).

(** The body of the [try] statement. *)
Definition try_body (ev : event) (w : world) : M unit :=
  _ <~ lift (match environ_PATH w with
             | Some _ => OK tt
             | None => Raise TypeError
             end) ;;
  _ <~ lift (if startswith (KubeConfigPath ev) "s3://" then OK tt
             else Raise (Exception
    "KubeConfigPath must be a valid s3 URI (eg.: s3://my-bucket/my-key.txt")) ;;
  cfg <~ lift (get_config_details ev) ;;
  let '(bucket, key, kms_context) := cfg in
  _ <~ emit (ECreateKubeconfig bucket key kms_context) ;;
  _ <~ lift (create_kubeconfig w bucket key kms_context) ;;
  _ <~ match PhysicalResourceId ev with
       | Some p => set_physical_resource_id (VStr p)
       | None => ret tt
       end ;;
  pid <~ get_physical_resource_id ;;
  manifest <~ lift (m <- generate_name ev pid ;; fix_types m) ;;
  _ <~ emit (EWriteManifest manifest manifest_file) ;;
  _ <~ when (String.eqb (RequestType ev) "Create")
         (outp <~ do_run_command w
            ("kubectl create --save-config -o json -f " ++ manifest_file)%string ;;
          kube_response <~ lift (json_loads w outp) ;;
          rd <~ lift (build_output kube_response) ;;
          _ <~ set_response_data rd ;;
          self_link <~ lift (getitem rd "selfLink") ;;
          set_physical_resource_id self_link) ;;
  _ <~ when (String.eqb (RequestType ev) "Update")
         (outp <~ do_run_command w
            ("kubectl apply -f " ++ manifest_file)%string ;;
          kube_response <~ lift (json_loads w outp) ;;
          rd <~ lift (build_output kube_response) ;;
          set_response_data rd) ;;
  when (String.eqb (RequestType ev) "Delete")
    (pid <~ get_physical_resource_id ;;
     is_fallback <~ lift (re_search_fallback_id pid) ;;
     if negb is_fallback
     then (_ <~ do_run_command w
             ("kubectl delete -f " ++ manifest_file)%string ;; ret tt)
     else ret tt).

Definition initial_locals : locals :=
  {| response_data := VDict []; physical_resource_id := VNone;
     effects := [] |}.

(** The report of the [finally] block: status and reason from the outcome
    of the [try] body, payload and id from the local variables. *)
Definition final_report (ev : event) (ctx : context) (w : world)
  : response_body :=
  match try_body ev w initial_locals with
  | (OK _, s) =>
      send ev ctx SUCCESS (response_data s) (physical_resource_id s) None
  | (Raise e, s) =>
      send ev ctx FAILED (response_data s) (physical_resource_id s) (Some e)
  end.

(** The commands and writes of the [try] body, in order. *)
Definition body_effects (ev : event) (w : world) : list effect :=
  effects (snd (try_body ev w initial_locals)).

(** The handler when the watchdog does not fire: the effects of the body,
    then the one report. *)
Definition lambda_handler (ev : event) (ctx : context) (w : world)
  : list effect :=
  body_effects ev w ++ [ESend (final_report ev ctx w)].

(** ** The watchdog timer

    [threading.Timer] runs [timeout] in a thread of its own once the
    interval has passed, unless [cancel] came first; [cancel] after the
    timer has fired does nothing.  The main thread and the timer thread
    are interleaved: a configuration holds what the main thread has still
    to do, the state of the timer, and the effects so far. *)

Inductive timer_state : Type := Waiting | Fired | Cancelled.

Inductive action : Type :=
| ADo (e : effect)      (* an effect of the main thread *)
| ACancel.              (* timer.cancel() *)

Record config : Type := {
  todo : list action;
  timer : timer_state;
  done : list effect
}.

Definition cancel (t : timer_state) : timer_state :=
  match t with
  | Waiting => Cancelled
  | t => t
  end.

(** What the main thread does after [timer.start()]. *)
Definition main_thread (ev : event) (ctx : context) (w : world)
  : list action :=
  map ADo (body_effects ev w)
  ++ [ACancel; ADo (ESend (final_report ev ctx w))].

Definition start (ev : event) (ctx : context) (w : world) : config :=
  {| todo := main_thread ev ctx w; timer := Waiting; done := [] |}.

Section Steps.
Variables (ev : event) (ctx : context).

Inductive step : config -> config -> Prop :=
| step_do : forall e rest t d,
    step {| todo := ADo e :: rest; timer := t; done := d |}
         {| todo := rest; timer := t; done := d ++ [e] |}
| step_cancel : forall rest t d,
    step {| todo := ACancel :: rest; timer := t; done := d |}
         {| todo := rest; timer := cancel t; done := d |}
| step_fire : forall td d,
    step {| todo := td; timer := Waiting; done := d |}
         {| todo := td; timer := Fired;
            done := d ++ [ESend (timeout ev ctx)] |}.

Inductive steps : config -> config -> Prop :=
| steps_refl : forall c, steps c c
| steps_step : forall c1 c2 c3, step c1 c2 -> steps c2 c3 -> steps c1 c3.
End Steps.

(** The handler has returned. *)
Definition returned (c : config) : Prop := todo c = [].

Definition is_send (e : effect) : bool :=
  match e with ESend _ => true | _ => false end.

Definition count_sends (l : list effect) : nat :=
  length (filter is_send l).

Definition is_command (e : effect) : bool :=
  match e with ERunCommand _ => true | _ => false end.

Definition commands (l : list effect) : list effect := filter is_command l.

(** ** Named forms of the two comprehensions of [traverse] *)

Definition finish (p : path) (cb : option callback) (x : value)
  : exc value :=
  match cb with
  | None => OK x
  | Some f => f p x
  end.

Fixpoint traverse_items (p : path) (cb : option callback) (d : dict)
  : exc dict :=
  match d with
  | [] => OK []
  | (k, v) :: r =>
      v' <- traverse v (p ++ [SKey k]) cb ;;
      r' <- traverse_items p cb r ;;
      OK ((k, v') :: r')
  end.

Fixpoint traverse_elems (p : path) (cb : option callback) (l : list value)
  (idx : Z) : exc (list value) :=
  match l with
  | [] => OK []
  | v :: r =>
      v' <- traverse v (p ++ [SList [idx]]) cb ;;
      r' <- traverse_elems p cb r (idx + 1) ;;
      OK (v' :: r')
  end.

(** The callback of [fix_types]. *)
Definition coerce_cb : option callback :=
  Some (fun _ value => set_type value).

(** A value without the empty string as a dictionary key. *)
Fixpoint no_empty_key (v : value) : bool :=
  match v with
  | VDict d =>
      (fix go (d : dict) : bool :=
         match d with
         | [] => true
         | (k, x) :: r => nonempty k && no_empty_key x && go r
         end) d
  | VList l =>
      (fix go (l : list value) : bool :=
         match l with
         | [] => true
         | x :: r => no_empty_key x && go r
         end) l
  | _ => true
  end.

(** The superscript two, U+00B2. *)
Definition superscript_two : string := String (ascii_of_nat 178) EmptyString.

(** ** Definitions used in the statements below *)

(** The loop of [build_output] on a response with a metadata map: each
    key of the remaining list is copied when the map has it. *)
Definition copy_key (m : dict) (outp : dict) (key : string) : dict :=
  match dict_get key m with
  | Some x => dict_set key x outp
  | None => outp
  end.

(** The manifest with [value] stored under [field] of its metadata map. *)
Definition with_metadata_field (d m : dict) (field : string) (x : value)
  : value :=
  VDict (dict_set "metadata" (VDict (dict_set field x m)) d).

Definition example_event (request_type : string) (manifest : value)
  (config_path : string) (pid : option string) : event :=
  {| RequestType := request_type;
     Manifest := manifest;
     KubeConfigPath := config_path;
     KubeConfigKmsContext := VStr "ctx";
     PhysicalResourceId := pid;
     StackId := "arn:aws:cloudformation:us-east-1:123456789012:stack/MyStack/uuid";
     ResponseURL := "https://cloudformation.example/response";
     RequestId := "req-1";
     LogicalResourceId := "KubeManifest" |}.

(** The id that [send] falls back to: the one of the request, or the log
    stream name. *)
Definition carried_id (ev : event) (ctx : context) : value :=
  match PhysicalResourceId ev with
  | Some p => VStr p
  | None => VStr (log_stream_name ctx)
  end.

Definition create_command : string :=
  "kubectl create --save-config -o json -f /tmp/manifest.json".
Definition apply_command : string := "kubectl apply -f /tmp/manifest.json".
Definition delete_command : string := "kubectl delete -f /tmp/manifest.json".

Definition wp {A : Type} (m : M A) (s : locals)
  (Q : exc A -> locals -> Prop) : Prop :=
  Q (fst (m s)) (snd (m s)).

(** [x] is the selfLink in the metadata of the object that the create
    command printed. *)
Definition self_link_of (w : world) (x : value) : Prop :=
  exists outp kube_response metadata,
    run_command w create_command = OK outp
    /\ json_loads w outp = OK kube_response
    /\ getitem kube_response "metadata" = OK metadata
    /\ getitem metadata "selfLink" = OK x.

(** The id variable of the body holds nothing, or the id of the request,
    or, on Create, the selfLink of the created object. *)
Definition id_invariant (ev : event) (w : world) (s : locals) : Prop :=
  physical_resource_id s = VNone
  \/ (exists p, PhysicalResourceId ev = Some p
                /\ physical_resource_id s = VStr p)
  \/ (RequestType ev = "Create" /\ self_link_of w (physical_resource_id s)).

Definition example_world : world :=
  {| environ_PATH := Some "/usr/bin";
     create_kubeconfig := fun _ _ _ => OK tt;
     run_command := fun _ => OK "json";
     json_loads := fun _ =>
       OK (VDict [("kind", VStr "Pod");
                  ("metadata", VDict [("uid", VStr "u1");
                                      ("selfLink", VStr "/api/v1/x");
                                      ("name", VStr "x")])]) |}.

Definition example_context : context :=
  {| log_stream_name :=
       "2020/01/01/[$LATEST]0123456789abcdef0123456789abcdef";
     remaining_time_in_millis := 3000 |}.

(** The steps before the dispatch on the request type succeed: PATH is
    set, the kubeconfig is fetched, and naming and coercion give
    [manifest]. *)
Definition prepared (ev : event) (w : world) (bucket key : string)
  (kms_context manifest : value) : Prop :=
  environ_PATH w <> None
  /\ startswith (KubeConfigPath ev) "s3://" = true
  /\ get_config_details ev = OK (bucket, key, kms_context)
  /\ create_kubeconfig w bucket key kms_context = OK tt
  /\ (m <- generate_name ev
             match PhysicalResourceId ev with
             | Some p => VStr p
             | None => VNone
             end ;;
      fix_types m) = OK manifest.

Definition example_fallback_id : string :=
  "2020/01/01/[$LATEST]0123456789abcdef0123456789abcdef".

(** A computation of the body adds no report to the effects. *)
Definition no_send {A : Type} (m : M A) : Prop :=
  forall s, count_sends (effects s) = 0%nat ->
            count_sends (effects (snd (m s))) = 0%nat.

(** The reports that the main thread has still to send. *)
Definition pending_sends (acts : list action) : nat :=
  length (filter (fun a => match a with
                           | ADo e => is_send e
                           | ACancel => false
                           end) acts).

Definition fired (t : timer_state) : nat :=
  match t with Fired => 1%nat | _ => 0%nat end.

(** The text of a bracketed index with the digits [ds]. *)
Definition index_token (ds : string) : string :=
  String "[" (ds ++ "]")%string.

Definition digits (ds : string) : bool :=
  nonempty ds && str_forall is_ascii_digit ds.

Definition ends_empty_key (p : path) : bool :=
  match last p (SList []) with
  | SKey EmptyString => true
  | _ => false
  end.

(** The '.'-delimited components of an address string, and those of them
    that are not empty. *)
Definition components (s : string) : list string := split_on "." s.

Definition nonempty_components (s : string) : list string :=
  filter nonempty (components s).

(** ** The grammar of address strings

    A valid address is a non-empty list of components separated by dots;
    a component is a key, not empty and without dot or bracket, followed
    by any number of bracketed indices. *)

Record component : Type := {
  ckey : string;
  cidx : list string        (* the digits of each index *)
}.

Definition key_char (c : ascii) : bool :=
  negb (Ascii.eqb c ".") && negb (Ascii.eqb c "[") && negb (Ascii.eqb c "]").

Definition valid_key (k : string) : bool :=
  nonempty k && str_forall key_char k.

Definition valid_component (c : component) : bool :=
  valid_key (ckey c) && forallb digits (cidx c).

Definition valid_address (a : list component) : bool :=
  match a with
  | [] => false
  | _ => forallb valid_component a
  end.

Fixpoint concat_str (l : list string) : string :=
  match l with
  | [] => EmptyString
  | x :: r => (x ++ concat_str r)%string
  end.

Definition render_component (c : component) : string :=
  (ckey c ++ concat_str (map index_token (cidx c)))%string.

(** The address string of a list of components. *)
Definition render (a : list component) : string :=
  join "." (map render_component a).

Definition ends_in_index (a : list component) : bool :=
  match cidx (last a {| ckey := EmptyString; cidx := [] |}) with
  | [] => false
  | _ => true
  end.

(** The segments of the indices of one component: each index, and the
    empty key between two of them. *)
Fixpoint index_segs (idxs : list string) : list seg :=
  match idxs with
  | [] => []
  | [i] => [SList [int_digits i]]
  | i :: rest => SList [int_digits i] :: SKey EmptyString :: index_segs rest
  end.

Definition component_segs (c : component) : list seg :=
  SKey (ckey c) :: index_segs (cidx c).

(** The segments of an address: those of its components, and the empty
    key at the end when the address ends in an index. *)
Definition address_segs (a : list component) : list seg :=
  flat_map component_segs a
  ++ (if ends_in_index a then [SKey EmptyString] else []).

Definition index_count (a : list component) : nat :=
  list_sum (map (fun c => length (cidx c)) a).

(** The pairs of indices that follow each other directly. *)
Definition adjacent_index_pairs (a : list component) : nat :=
  list_sum (map (fun c => pred (length (cidx c))) a).

(** ** Definitions used in the proof about valid addresses *)

(** The index segment that [to_path] makes of one match. *)
Definition idx_of_match (i : string) : list Z := [int_digits (slice_1_m1 i)].

(** The result of [_iter_path] on an address string. *)
Definition scan_segs (s : string) : list seg :=
  _iter_path (re_split_index s) (map idx_of_match (re_findall_index s)).

(** The key segments of one piece. *)
Definition piece_keys (piece : string) : list seg :=
  map SKey (split_on "." (strip "." piece)).

Definition prepend (t : string) (pieces : list string) : list string :=
  match pieces with
  | h :: tl => (t ++ h)%string :: tl
  | [] => [t]
  end.

Definition no_bracket (c : ascii) : bool := negb (Ascii.eqb c "[").

Definition no_dot (c : ascii) : bool := negb (Ascii.eqb c ".").

(** Keys and components, each with a dot in front. *)
Definition dotted_keys (ks : list string) : string :=
  concat_str (map (fun k => String "." k) ks).

Definition dotted (a : list component) : string :=
  concat_str (map (fun c => String "." (render_component c)) a).

Definition keys_segs (ks : list string) : list seg :=
  match ks with
  | [] => [SKey EmptyString]
  | _ => map SKey ks
  end.

Fixpoint after_indices (rest_segs : list seg) (idxs : list string)
  : list seg :=
  match idxs with
  | [] => rest_segs
  | j :: js =>
      SKey EmptyString :: SList [int_digits j] :: after_indices rest_segs js
  end.

(** The segments of the components [a] after the pending keys [ks]. *)
Fixpoint expected (ks : list string) (a : list component) : list seg :=
  match a with
  | [] => keys_segs ks
  | c :: a' =>
      match cidx c with
      | [] => expected (ks ++ [ckey c]) a'
      | i :: idxs =>
          map SKey (ks ++ [ckey c])
          ++ SList [int_digits i]
             :: after_indices (expected [] a') idxs
      end
  end.

(** ** Direct descent along an address

    What [traverse_modify] amounts to, written as a descent along the
    target address instead of a walk over the whole tree. *)

Fixpoint mapM_items (f : string -> value -> exc value) (d : dict)
  : exc dict :=
  match d with
  | [] => OK []
  | (k, v) :: r =>
      v' <- f k v ;;
      r' <- mapM_items f r ;;
      OK ((k, v') :: r')
  end.

Fixpoint mapM_elems (f : Z -> value -> exc value) (l : list value)
  (idx : Z) : exc (list value) :=
  match l with
  | [] => OK []
  | v :: r =>
      v' <- f idx v ;;
      r' <- mapM_elems f r (idx + 1) ;;
      OK (v' :: r')
  end.

(** The action applied to the nodes at address [t] below [v]; every other
    node as it is. *)
Fixpoint modify_at (t : path) (action : value -> exc value) (v : value)
  : exc value :=
  match t with
  | [] => action v
  | SKey k :: rest =>
      match v with
      | VDict d =>
          d' <- mapM_items
                  (fun k' x => if String.eqb k' k
                               then modify_at rest action x else OK x) d ;;
          OK (VDict d')
      | _ => OK v
      end
  | SList [i] :: rest =>
      match v with
      | VList l =>
          l' <- mapM_elems
                  (fun idx x => if idx =? i
                                then modify_at rest action x else OK x) l 0 ;;
          OK (VList l')
      | _ => OK v
      end
  | SList _ :: _ => OK v
  end.

(** Whether [v] has a node at address [t]. *)
Fixpoint has_node (t : path) (v : value) : bool :=
  match t with
  | [] => true
  | SKey k :: rest =>
      match v with
      | VDict d =>
          existsb (fun kv => String.eqb (fst kv) k && has_node rest (snd kv)) d
      | _ => false
      end
  | SList [i] :: rest =>
      match v with
      | VList l =>
          (0 <=? i) && (i <? Z.of_nat (length l))
          && has_node rest (nth (Z.to_nat i) l VNone)
      | _ => false
      end
  | SList _ :: _ => false
  end.

(** The callback of [traverse_modify] for a target that is a list. *)
Definition modify_cb (target_path : path) (action : value -> exc value)
  : option callback :=
  Some (fun p value =>
          if path_eqb p target_path then action value else OK value).

(** ** Leaves and shape of a value *)

(** [p] holds of every scalar of [v]. *)
Fixpoint all_leaves (p : value -> bool) (v : value) : bool :=
  match v with
  | VDict d =>
      (fix go (d : dict) : bool :=
         match d with
         | [] => true
         | (_, x) :: r => all_leaves p x && go r
         end) d
  | VList l =>
      (fix go (l : list value) : bool :=
         match l with
         | [] => true
         | x :: r => all_leaves p x && go r
         end) l
  | _ => p v
  end.

(** The maps and lists of [v] with every scalar blanked. *)
Fixpoint skeleton (v : value) : value :=
  match v with
  | VDict d =>
      VDict ((fix go (d : dict) : dict :=
                match d with
                | [] => []
                | (k, x) :: r => (k, skeleton x) :: go r
                end) d)
  | VList l =>
      VList ((fix go (l : list value) : list value :=
                match l with
                | [] => []
                | x :: r => skeleton x :: go r
                end) l)
  | _ => VNone
  end.

(** A string that [set_type] takes for a boolean or a number. *)
Definition looks_typed (s : string) : bool :=
  String.eqb (lower s) "false" || String.eqb (lower s) "true" || isdigit s.

(** A scalar that [set_type] leaves as it is. *)
Definition leaf_settled (v : value) : bool :=
  match v with
  | VStr s => negb (looks_typed s)
  | _ => true
  end.


(** ** Definitions used in further statements *)

(** The event with another manifest. *)
Definition with_manifest (ev : event) (manifest : value) : event :=
  {| RequestType := RequestType ev;
     Manifest := manifest;
     KubeConfigPath := KubeConfigPath ev;
     KubeConfigKmsContext := KubeConfigKmsContext ev;
     PhysicalResourceId := PhysicalResourceId ev;
     StackId := StackId ev;
     ResponseURL := ResponseURL ev;
     RequestId := RequestId ev;
     LogicalResourceId := LogicalResourceId ev |}.

(** The event with another kubeconfig path. *)
Definition with_config_path (ev : event) (config_path : string) : event :=
  {| RequestType := RequestType ev;
     Manifest := Manifest ev;
     KubeConfigPath := config_path;
     KubeConfigKmsContext := KubeConfigKmsContext ev;
     PhysicalResourceId := PhysicalResourceId ev;
     StackId := StackId ev;
     ResponseURL := ResponseURL ev;
     RequestId := RequestId ev;
     LogicalResourceId := LogicalResourceId ev |}.

Definition no_slash (c : ascii) : bool := negb (Ascii.eqb c "/").

Definition invalid_config_path : exn :=
  Exception
    "Invalid KubeConfigPath, must be in the format s3://bucket-name/path/to/config".

(** ** What the try body can do to the outside *)

(** The command of a request type; none for any other type. *)
Definition request_command (request_type : string) : option string :=
  if String.eqb request_type "Create" then Some create_command
  else if String.eqb request_type "Update" then Some apply_command
  else if String.eqb request_type "Delete" then Some delete_command
  else None.

(** The physical id of the request as the body holds it. *)
Definition request_id_value (ev : event) : value :=
  match PhysicalResourceId ev with
  | Some p => VStr p
  | None => VNone
  end.

(** [manifest] is the manifest of the request, named and coerced. *)
Definition named_coerced (ev : event) (manifest : value) : Prop :=
  (m <- generate_name ev (request_id_value ev) ;; fix_types m) = OK manifest.

(** The four shapes of the effects of the body. *)
Inductive body_trace (ev : event) (w : world) : list effect -> Prop :=
| trace_nothing : body_trace ev w []
| trace_fetch : forall b k c,
    get_config_details ev = OK (b, k, c) ->
    body_trace ev w [ECreateKubeconfig b k c]
| trace_write : forall b k c m,
    get_config_details ev = OK (b, k, c) ->
    create_kubeconfig w b k c = OK tt ->
    named_coerced ev m ->
    body_trace ev w [ECreateKubeconfig b k c; EWriteManifest m manifest_file]
| trace_command : forall b k c m command,
    get_config_details ev = OK (b, k, c) ->
    create_kubeconfig w b k c = OK tt ->
    named_coerced ev m ->
    request_command (RequestType ev) = Some command ->
    body_trace ev w [ECreateKubeconfig b k c; EWriteManifest m manifest_file;
                     ERunCommand command].

(** The state of the body once the manifest is written. *)
Definition prepared_locals (ev : event) (bucket key : string)
  (kms_context manifest : value) : locals :=
  {| response_data := VDict [];
     physical_resource_id := request_id_value ev;
     effects := [ECreateKubeconfig bucket key kms_context;
                 EWriteManifest manifest manifest_file] |}.

(** The three conditionals on the request type at the end of the body. *)
Definition dispatch (ev : event) (w : world) : M unit :=
  _ <~ when (String.eqb (RequestType ev) "Create")
         (outp <~ do_run_command w
            ("kubectl create --save-config -o json -f " ++ manifest_file)%string ;;
          kube_response <~ lift (json_loads w outp) ;;
          rd <~ lift (build_output kube_response) ;;
          _ <~ set_response_data rd ;;
          self_link <~ lift (getitem rd "selfLink") ;;
          set_physical_resource_id self_link) ;;
  _ <~ when (String.eqb (RequestType ev) "Update")
         (outp <~ do_run_command w
            ("kubectl apply -f " ++ manifest_file)%string ;;
          kube_response <~ lift (json_loads w outp) ;;
          rd <~ lift (build_output kube_response) ;;
          set_response_data rd) ;;
  when (String.eqb (RequestType ev) "Delete")
    (pid <~ get_physical_resource_id ;;
     is_fallback <~ lift (re_search_fallback_id pid) ;;
     if negb is_fallback
     then (_ <~ do_run_command w
             ("kubectl delete -f " ++ manifest_file)%string ;; ret tt)
     else ret tt).

(** The report of the [finally] block for an outcome of the body. *)
Definition report_of (ev : event) (ctx : context)
  (outcome : exc unit * locals) : response_body :=
  match outcome with
  | (OK _, s) =>
      send ev ctx SUCCESS (response_data s) (physical_resource_id s) None
  | (Raise e, s) =>
      send ev ctx FAILED (response_data s) (physical_resource_id s) (Some e)
  end.

(** The effects that the main thread has still to perform. *)
Definition pending_effects (acts : list action) : list effect :=
  flat_map (fun a => match a with
                     | ADo e => [e]
                     | ACancel => []
                     end) acts.

(** * Properties *)

(** ** The result monad *)

Lemma bind_OK {A B : Type} (m : exc A) (k : A -> exc B) (b : B) :
  bind m k = OK b -> exists a, m = OK a /\ k a = OK b.
Proof.
  destruct m as [a|e]; simpl; intros H; [eauto | discriminate].
Qed.

Lemma bind_ret {A : Type} (m : exc A) : bind m OK = m.
Proof. destruct m; reflexivity. Qed.

(** ** Unfolding [traverse] *)

Lemma traverse_VDict p cb d :
  traverse (VDict d) p cb
  = (d' <- traverse_items p cb d ;; finish p cb (VDict d')).
Proof.
  simpl. f_equal.
  induction d as [|[k v] r IH]; simpl; [reflexivity|].
  rewrite IH. reflexivity.
Qed.

Lemma traverse_VList p cb l :
  traverse (VList l) p cb
  = (l' <- traverse_elems p cb l 0 ;; finish p cb (VList l')).
Proof.
  simpl. f_equal. generalize 0.
  induction l as [|v r IH]; intros idx; simpl; [reflexivity|].
  rewrite IH. reflexivity.
Qed.

Lemma traverse_scalar v p cb :
  is_scalar v = true -> traverse v p cb = finish p cb v.
Proof. destruct v; simpl; intros H; try reflexivity; discriminate. Qed.

(** ** Type coercion *)

Lemma set_type_not_str v :
  (forall s, v <> VStr s) -> set_type v = OK v.
Proof. destruct v; intros H; try reflexivity. destruct (H s eq_refl). Qed.

Lemma set_type_idem v v' :
  set_type v = OK v' -> set_type v' = OK v'.
Proof.
  destruct v; simpl; intros H; try (inversion H; subst; reflexivity).
  destruct (String.eqb (lower s) "false") eqn:Ef;
    [inversion H; reflexivity|].
  destruct (String.eqb (lower s) "true") eqn:Et;
    [inversion H; reflexivity|].
  destruct (isdigit s) eqn:Ed.
  - destruct (py_int s); simpl in H; inversion H; reflexivity.
  - inversion H; subst. simpl. rewrite Ef, Et, Ed. reflexivity.
Qed.

Lemma set_type_scalar v v' :
  is_scalar v = true -> set_type v = OK v' -> is_scalar v' = true.
Proof.
  destruct v; simpl; intros Hs H; try discriminate;
    try (inversion H; subst; reflexivity).
  destruct (String.eqb (lower s) "false"); [inversion H; reflexivity|].
  destruct (String.eqb (lower s) "true"); [inversion H; reflexivity|].
  destruct (isdigit s).
  - destruct (py_int s); simpl in H; inversion H; reflexivity.
  - inversion H; reflexivity.
Qed.

Lemma coerce_elems_fixed l :
  Forall (fun v => forall p v', traverse v p coerce_cb = OK v' ->
                   forall q, traverse v' q coerce_cb = OK v') l ->
  forall p idx l', traverse_elems p coerce_cb l idx = OK l' ->
  forall q idx', traverse_elems q coerce_cb l' idx' = OK l'.
Proof.
  induction 1 as [|v r Hv Hr IH]; intros p idx l' H q idx'; simpl in H.
  - inversion H; reflexivity.
  - apply bind_OK in H as (v1 & H1 & H).
    apply bind_OK in H as (r1 & H2 & H).
    inversion H; subst; clear H. simpl.
    rewrite (Hv _ _ H1). simpl.
    rewrite (IH _ _ _ H2). reflexivity.
Qed.

Lemma coerce_items_fixed d :
  Forall (fun kv => forall p v', traverse (snd kv) p coerce_cb = OK v' ->
                    forall q, traverse v' q coerce_cb = OK v') d ->
  forall p d', traverse_items p coerce_cb d = OK d' ->
  forall q, traverse_items q coerce_cb d' = OK d'.
Proof.
  induction 1 as [|[k v] r Hv Hr IH]; intros p d' H q; simpl in H.
  - inversion H; reflexivity.
  - apply bind_OK in H as (v1 & H1 & H).
    apply bind_OK in H as (r1 & H2 & H).
    inversion H; subst; clear H. simpl.
    rewrite (Hv _ _ H1). simpl.
    rewrite (IH _ _ H2). reflexivity.
Qed.

Lemma finish_coerce p v : finish p coerce_cb v = set_type v.
Proof. reflexivity. Qed.

(** A coerced value is a fixed point of the coercion, whatever the paths. *)
Lemma coerce_fixed v :
  forall p v', traverse v p coerce_cb = OK v' ->
  forall q, traverse v' q coerce_cb = OK v'.
Proof.
  induction v as [| b | z | f | s | l IH | d IH] using value_rect';
    intros p v' H q.
  1-5: rewrite traverse_scalar, finish_coerce in H by reflexivity;
       rewrite traverse_scalar, finish_coerce
         by (eapply set_type_scalar; [|exact H]; reflexivity);
       eapply set_type_idem; exact H.
  - rewrite traverse_VList in H.
    apply bind_OK in H as (l' & H1 & H). simpl in H.
    inversion H; subst; clear H.
    rewrite traverse_VList, (coerce_elems_fixed _ IH _ _ _ H1). reflexivity.
  - rewrite traverse_VDict in H.
    apply bind_OK in H as (d' & H1 & H). simpl in H.
    inversion H; subst; clear H.
    rewrite traverse_VDict, (coerce_items_fixed _ IH _ _ H1). reflexivity.
Qed.

(** C5.  Type coercion is idempotent: coercing the result of a coercion
    gives that result again, [fix_types(fix_types(v)) == fix_types(v)];
    and where the first coercion raises, so does the composition, with the
    same exception. *)
Theorem fix_types_idempotent (v : value) :
  (v' <- fix_types v ;; fix_types v') = fix_types v.
Proof.
  unfold fix_types, traverse_modify_all. fold coerce_cb.
  destruct (traverse v [] coerce_cb) as [v'|e] eqn:H; simpl; [|reflexivity].
  eapply coerce_fixed; exact H.
Qed.

(** What [set_type] does to a string without superscript digits: the two
    booleans, the decimal numbers, and everything else as it is. *)
Lemma set_type_str (s : string) :
  (isdigit s = true -> str_forall is_ascii_digit s = true) ->
  set_type (VStr s)
  = OK (if String.eqb (lower s) "false" then VBool false
        else if String.eqb (lower s) "true" then VBool true
        else if isdigit s then VInt (int_digits s)
        else VStr s).
Proof.
  intros H. simpl.
  destruct (String.eqb (lower s) "false"); [reflexivity|].
  destruct (String.eqb (lower s) "true"); [reflexivity|].
  destruct (isdigit s) eqn:Ed; [|reflexivity].
  unfold py_int. rewrite (H eq_refl).
  unfold isdigit in Ed. apply andb_true_iff in Ed as [-> _]. reflexivity.
Qed.

Example set_type_examples :
  set_type (VStr "true") = OK (VBool true)
  /\ set_type (VStr "FALSE") = OK (VBool false)
  /\ set_type (VStr "42") = OK (VInt 42)
  /\ set_type (VStr "007") = OK (VInt 7)
  /\ set_type (VStr "4.5") = OK (VStr "4.5")
  /\ set_type (VStr "on") = OK (VStr "on")
  /\ set_type (VInt 3) = OK (VInt 3)
  /\ set_type VNone = OK VNone.
Proof. repeat split. Qed.

(** C4.  The superscript two is a string that is not composed of decimal
    digits, so it should pass through unchanged; [isdigit] accepts it,
    [int] does not, and the coercion of a manifest that holds it raises
    ValueError. *)
Theorem fix_types_superscript_digit :
  str_forall is_ascii_digit superscript_two = false
  /\ isdigit superscript_two = true
  /\ set_type (VStr superscript_two) = Raise (ValueError superscript_two)
  /\ fix_types (VDict [("metadata",
                        VDict [("annotations",
                                VDict [("area", VStr superscript_two)])])])
     = Raise (ValueError superscript_two).
Proof. repeat split. Qed.

(** ** The empty address *)

Lemma to_path_empty_string : to_path (TStr EmptyString) = [SKey EmptyString].
Proof. reflexivity. Qed.

(** C2, as the code has it.  For a scalar root the empty address string
    parses to the one-segment address of the empty key, which is not the
    address of the root, so [traverse_modify] with that string returns
    [v]; the root is addressed by the empty list,
    [traverse_modify(v, [], a) == a(v)]. *)
Theorem traverse_modify_scalar_root (v : value) (a : value -> exc value) :
  is_scalar v = true ->
  traverse_modify v (TStr EmptyString) a = OK v
  /\ traverse_modify v (TList []) a = a v.
Proof.
  intros Hs. unfold traverse_modify.
  rewrite !traverse_scalar by exact Hs.
  rewrite to_path_empty_string. split; reflexivity.
Qed.

Lemma traverse_modify_scalar_root_witness :
  traverse_modify (VStr "x") (TStr EmptyString) (fun _ => OK VNone) = OK (VStr "x")
  /\ traverse_modify (VStr "x") (TList []) (fun _ => OK VNone) = OK VNone.
Proof.
  apply (traverse_modify_scalar_root (VStr "x") (fun _ => OK VNone)).
  reflexivity.
Defined.

(** C2 as stated fails: with the empty address string the action is not
    applied to a scalar root. *)
Lemma traverse_modify_empty_string_counterexample :
  is_scalar (VInt 0) = true
  /\ traverse_modify (VInt 0) (TStr EmptyString) (fun _ => OK (VInt 1))
     <> (fun _ => OK (VInt 1)) (VInt 0).
Proof. split; [reflexivity | discriminate]. Qed.

(** ** Dictionaries *)

Lemma dict_get_set k k' v d :
  dict_get k (dict_set k' v d)
  = if String.eqb k k' then Some v else dict_get k d.
Proof.
  induction d as [|[k0 v0] r IH]; simpl.
  - reflexivity.
  - destruct (String.eqb k' k0) eqn:E0; simpl.
    + apply String.eqb_eq in E0; subst k0.
      destruct (String.eqb k k'); reflexivity.
    + rewrite IH. destruct (String.eqb k k0) eqn:E1; [|reflexivity].
      apply String.eqb_eq in E1; subst k0.
      destruct (String.eqb k k') eqn:E2; [|reflexivity].
      apply String.eqb_eq in E2; subst k'.
      rewrite String.eqb_refl in E0. discriminate.
Qed.

Lemma dict_has_get k d :
  dict_has k d = match dict_get k d with Some _ => true | None => false end.
Proof. reflexivity. Qed.

(** ** build_output *)

Lemma build_output_loop_fold d m ks : forall outp,
  dict_get "metadata" d = Some (VDict m) ->
  build_output_loop (VDict d) ks outp = OK (fold_left (copy_key m) ks outp).
Proof.
  induction ks as [|key rest IH]; intros outp Hm; simpl.
  - reflexivity.
  - rewrite Hm. simpl. unfold copy_key at 2. rewrite dict_has_get.
    destruct (dict_get key m) as [x|]; simpl; apply IH; exact Hm.
Qed.

Lemma dict_get_fold_copy m ks k : forall outp,
  dict_get k (fold_left (copy_key m) ks outp)
  = if existsb (String.eqb k) ks
    then match dict_get k m with
         | Some x => Some x
         | None => dict_get k outp
         end
    else dict_get k outp.
Proof.
  induction ks as [|key rest IH]; intros outp; simpl.
  - reflexivity.
  - rewrite IH. unfold copy_key.
    destruct (String.eqb k key) eqn:E; simpl.
    + apply String.eqb_eq in E; subst key.
      destruct (dict_get k m) as [x|] eqn:Ek.
      * rewrite dict_get_set, String.eqb_refl.
        destruct (existsb (String.eqb k) rest); reflexivity.
      * destruct (existsb (String.eqb k) rest); reflexivity.
    + destruct (dict_get key m) as [x|]; [|reflexivity].
      rewrite dict_get_set, E. reflexivity.
Qed.

Lemma build_output_copy d m :
  dict_get "metadata" d = Some (VDict m) ->
  build_output (VDict d) = OK (VDict (fold_left (copy_key m) output_keys []))
  /\ forall k, dict_get k (fold_left (copy_key m) output_keys [])
               = if existsb (String.eqb k) output_keys
                 then dict_get k m else None.
Proof.
  intros Hm. split.
  - unfold build_output. rewrite (build_output_loop_fold d m) by exact Hm.
    reflexivity.
  - intros k. rewrite dict_get_fold_copy.
    destruct (existsb (String.eqb k) output_keys); [|reflexivity].
    destruct (dict_get k m); reflexivity.
Qed.

(** C9.  For a tool output that is a map with a metadata map,
    [build_output] returns a map in which each of uid, selfLink,
    resourceVersion, namespace and name is present exactly when the
    metadata map has it, with the same value, and in which no other key is
    present. *)
Theorem build_output_fields (kube_response : value) (d m : dict) :
  kube_response = VDict d ->
  dict_get "metadata" d = Some (VDict m) ->
  exists outp,
    build_output kube_response = OK (VDict outp)
    /\ forall k, dict_get k outp
                 = if existsb (String.eqb k) output_keys
                   then dict_get k m else None.
Proof.
  intros -> Hm. exists (fold_left (copy_key m) output_keys []).
  exact (build_output_copy d m Hm).
Qed.

Lemma build_output_fields_witness :
  exists outp,
    build_output
      (VDict [("kind", VStr "Pod");
              ("metadata", VDict [("uid", VStr "u1");
                                  ("selfLink", VStr "/api/v1/x");
                                  ("labels", VDict []);
                                  ("name", VStr "x")])])
    = OK (VDict outp)
    /\ forall k, dict_get k outp
                 = if existsb (String.eqb k) output_keys
                   then dict_get k [("uid", VStr "u1");
                                    ("selfLink", VStr "/api/v1/x");
                                    ("labels", VDict []);
                                    ("name", VStr "x")]
                   else None.
Proof.
  eapply build_output_fields; reflexivity.
Defined.

(** ** generate_name *)

Lemma with_metadata_field_get d m field x :
  exists m', getitem (with_metadata_field d m field x) "metadata"
             = OK (VDict m')
             /\ dict_get field m' = Some x.
Proof.
  exists (dict_set field x m). unfold with_metadata_field, getitem.
  rewrite dict_get_set, String.eqb_refl. split; [reflexivity|].
  rewrite dict_get_set, String.eqb_refl. reflexivity.
Qed.

Lemma dict_has_some k d x : dict_get k d = Some x -> dict_has k d = true.
Proof. unfold dict_has. intros ->. reflexivity. Qed.

Lemma dict_has_none k d : dict_get k d = None -> dict_has k d = false.
Proof. unfold dict_has. intros ->. reflexivity. Qed.

(** C6.  For a manifest that is a map and a stack id with a second
    '/'-delimited segment: [generate_name] returns the manifest unchanged
    when it has no metadata or when its metadata map has name or
    generateName; otherwise, with a physical id (a non-empty string) it
    sets metadata.name to the last '/'-delimited segment of the id, and
    without one it sets metadata.generateName to "cfn-", the lower-cased
    second segment of the stack id, "-". *)
Theorem generate_name_cases (ev : event) (d : dict)
  (first stack_name : string) (more : list string) :
  Manifest ev = VDict d ->
  split_on "/" (StackId ev) = first :: stack_name :: more ->
  (* no metadata: unchanged *)
  (dict_get "metadata" d = None ->
   forall pid, generate_name ev pid = OK (Manifest ev))
  /\
  (* name or generateName already there: unchanged *)
  (forall m, dict_get "metadata" d = Some (VDict m) ->
   dict_has "name" m || dict_has "generateName" m = true ->
   forall pid, generate_name ev pid = OK (Manifest ev))
  /\
  (* a physical id: metadata.name is its last segment *)
  (forall m p, dict_get "metadata" d = Some (VDict m) ->
   dict_has "name" m || dict_has "generateName" m = false ->
   p <> EmptyString ->
   generate_name ev (VStr p)
   = OK (with_metadata_field d m "name"
           (VStr (last (split_on "/" p) EmptyString))))
  /\
  (* no physical id: metadata.generateName from the stack name *)
  (forall m, dict_get "metadata" d = Some (VDict m) ->
   dict_has "name" m || dict_has "generateName" m = false ->
   generate_name ev VNone
   = OK (with_metadata_field d m "generateName"
           (VStr ("cfn-" ++ lower stack_name ++ "-")%string))).
Proof.
  intros HM Hst. unfold generate_name. rewrite HM, Hst.
  cbn [bind keys getitem].
  repeat split.
  - intros Hnone pid. rewrite (dict_has_none _ _ Hnone). reflexivity.
  - intros m Hm Hhas pid. rewrite (dict_has_some _ _ _ Hm), Hm.
    cbn [bind keys].
    apply orb_true_iff in Hhas as [H|H]; rewrite H;
      [reflexivity | rewrite andb_false_r; reflexivity].
  - intros m p Hm Hhas Hp. rewrite (dict_has_some _ _ _ Hm), Hm.
    cbn [bind keys].
    apply orb_false_iff in Hhas as [-> ->].
    destruct p; [congruence|]. reflexivity.
  - intros m Hm Hhas. rewrite (dict_has_some _ _ _ Hm), Hm.
    cbn [bind keys].
    apply orb_false_iff in Hhas as [-> ->]. reflexivity.
Qed.

Lemma generate_name_cases_witness :
  generate_name
    (example_event "Create" (VDict [("metadata", VDict [])]) "s3://b/k" None)
    VNone
  = OK (VDict [("metadata", VDict [("generateName", VStr "cfn-mystack-")])])
  /\
  generate_name
    (example_event "Update" (VDict [("metadata", VDict [])]) "s3://b/k"
       (Some "/api/v1/namespaces/ns/pods/foo-123"))
    (VStr "/api/v1/namespaces/ns/pods/foo-123")
  = OK (VDict [("metadata", VDict [("name", VStr "foo-123")])]).
Proof.
  split.
  - refine (proj2 (proj2 (proj2
      (generate_name_cases
         (example_event "Create" (VDict [("metadata", VDict [])])
            "s3://b/k" None)
         [("metadata", VDict [])]
         "arn:aws:cloudformation:us-east-1:123456789012:stack" "MyStack"
         ["uuid"] eq_refl eq_refl))) [] eq_refl eq_refl).
  - refine (proj1 (proj2 (proj2
      (generate_name_cases
         (example_event "Update" (VDict [("metadata", VDict [])])
            "s3://b/k" (Some "/api/v1/namespaces/ns/pods/foo-123"))
         [("metadata", VDict [])]
         "arn:aws:cloudformation:us-east-1:123456789012:stack" "MyStack"
         ["uuid"] eq_refl eq_refl))) []
         "/api/v1/namespaces/ns/pods/foo-123" eq_refl eq_refl _).
    discriminate.
Defined.

(** ** The handler: which physical id is reported *)

(** *** A weakest-precondition reading of the body monad *)

Lemma wp_bind {A B : Type} (m : M A) (k : A -> M B) s Q :
  wp m s (fun r s' => match r with
                      | OK a => wp (k a) s' Q
                      | Raise e => Q (Raise e) s'
                      end) ->
  wp (bindM m k) s Q.
Proof.
  unfold wp, bindM. destruct (m s) as [[a|e] s']; simpl; auto.
Qed.

Lemma wp_ret {A : Type} (a : A) s Q : Q (OK a) s -> wp (ret a) s Q.
Proof. exact (fun H => H). Qed.

Lemma wp_lift {A : Type} (x : exc A) s Q : Q x s -> wp (lift x) s Q.
Proof. exact (fun H => H). Qed.

Lemma wp_emit e s (Q : exc unit -> locals -> Prop) :
  Q (OK tt) {| response_data := response_data s;
               physical_resource_id := physical_resource_id s;
               effects := effects s ++ [e] |} ->
  wp (emit e) s Q.
Proof. exact (fun H => H). Qed.

Lemma wp_set_response_data v s (Q : exc unit -> locals -> Prop) :
  Q (OK tt) {| response_data := v;
               physical_resource_id := physical_resource_id s;
               effects := effects s |} ->
  wp (set_response_data v) s Q.
Proof. exact (fun H => H). Qed.

Lemma wp_set_physical_resource_id v s (Q : exc unit -> locals -> Prop) :
  Q (OK tt) {| response_data := response_data s;
               physical_resource_id := v;
               effects := effects s |} ->
  wp (set_physical_resource_id v) s Q.
Proof. exact (fun H => H). Qed.

Lemma wp_get_physical_resource_id s (Q : exc value -> locals -> Prop) :
  Q (OK (physical_resource_id s)) s -> wp get_physical_resource_id s Q.
Proof. exact (fun H => H). Qed.

Lemma wp_when (b : bool) (m : M unit) s Q :
  (if b then wp m s Q else Q (OK tt) s) -> wp (when b m) s Q.
Proof. destruct b; exact (fun H => H). Qed.

Lemma wp_do_run_command w command s (Q : exc string -> locals -> Prop) :
  Q (run_command w command)
    {| response_data := response_data s;
       physical_resource_id := physical_resource_id s;
       effects := effects s ++ [ERunCommand command] |} ->
  wp (do_run_command w command) s Q.
Proof. exact (fun H => H). Qed.

Lemma final_report_wp (ev : event) (ctx : context) (w : world)
  (P : response_body -> list effect -> Prop) :
  wp (try_body ev w) initial_locals
     (fun r s =>
        P (match r with
           | OK _ => send ev ctx SUCCESS (response_data s)
                       (physical_resource_id s) None
           | Raise e => send ev ctx FAILED (response_data s)
                          (physical_resource_id s) (Some e)
           end) (effects s)) ->
  P (final_report ev ctx w) (body_effects ev w).
Proof.
  unfold wp, final_report, body_effects.
  destruct (try_body ev w initial_locals) as [[u|e] s]; simpl; auto.
Qed.

(** One step of the calculus; a lifted computation is split into its two
    outcomes. *)
Ltac wp_step :=
  lazymatch goal with
  | |- wp (bindM _ _) _ _ => apply wp_bind
  | |- wp (ret _) _ _ => apply wp_ret
  | |- wp (emit _) _ _ => apply wp_emit
  | |- wp (set_response_data _) _ _ => apply wp_set_response_data
  | |- wp (set_physical_resource_id _) _ _ =>
      apply wp_set_physical_resource_id
  | |- wp get_physical_resource_id _ _ => apply wp_get_physical_resource_id
  | |- wp (do_run_command _ _) _ _ => apply wp_do_run_command
  | |- wp (when _ _) _ _ => apply wp_when
  | |- wp (lift _) _ _ => apply wp_lift
  end.

Ltac wp_run :=
  repeat first [wp_step | progress cbv beta iota
               | progress cbn [physical_resource_id response_data effects]].

Lemma build_output_self_link kube_response rd x :
  build_output kube_response = OK rd ->
  getitem rd "selfLink" = OK x ->
  exists metadata, getitem kube_response "metadata" = OK metadata
                   /\ getitem metadata "selfLink" = OK x.
Proof.
  intros Hb Hx.
  destruct (getitem kube_response "metadata") as [md|e] eqn:Hmd;
    [|unfold build_output in Hb; simpl in Hb; rewrite Hmd in Hb;
      discriminate].
  destruct md as [| | | | | |m];
    try (unfold build_output in Hb; simpl in Hb; rewrite Hmd in Hb;
         discriminate).
  destruct kube_response as [| | | | | |d]; try discriminate.
  simpl in Hmd. destruct (dict_get "metadata" d) as [y|] eqn:Hd;
    [|discriminate].
  inversion Hmd; subst y; clear Hmd.
  destruct (build_output_copy d m Hd) as (Ho & Hk).
  assert (Hrd : rd = VDict (fold_left (copy_key m) output_keys []))
    by congruence.
  subst rd. clear Hb.
  exists (VDict m). split; [reflexivity|].
  unfold getitem in Hx |- *. rewrite (Hk "selfLink") in Hx. exact Hx.
Qed.

Lemma try_body_id_invariant (ev : event) (w : world) :
  wp (try_body ev w) initial_locals (fun _ s => id_invariant ev w s).
Proof.
  unfold try_body. wp_run.
  destruct (environ_PATH w) as [path_var|]; [|left; reflexivity]. wp_run.
  destruct (startswith (KubeConfigPath ev) "s3://"); [|left; reflexivity].
  wp_run.
  destruct (get_config_details ev) as [[[bucket key] kms]|e];
    [|left; reflexivity].
  wp_run.
  destruct (create_kubeconfig w bucket key kms); [|left; reflexivity].
  wp_step.
  assert (Hid : forall s, physical_resource_id s
                          = match PhysicalResourceId ev with
                            | Some p => VStr p
                            | None => VNone
                            end ->
                          id_invariant ev w s).
  { intros s Hs. destruct (PhysicalResourceId ev) as [p|] eqn:Hp;
      [right; left; exists p; split; [exact Hp | exact Hs]
      | left; exact Hs]. }
  destruct (PhysicalResourceId ev) as [p|]; wp_run.
  all: match goal with
       | |- match ?x with _ => _ end =>
           destruct x; [|apply Hid; reflexivity]
       end.
  all: wp_run.
  all: destruct (String.eqb (RequestType ev) "Create") eqn:Hc;
    [ apply String.eqb_eq in Hc; wp_run;
      destruct (run_command w _) as [outp|] eqn:Hrun;
        [|apply Hid; reflexivity];
      wp_run;
      destruct (json_loads w outp) as [kr|] eqn:Hjs;
        [|apply Hid; reflexivity];
      wp_run;
      destruct (build_output kr) as [rd|] eqn:Hbo;
        [|apply Hid; reflexivity];
      wp_run;
      destruct (getitem rd "selfLink") as [x|] eqn:Hsl;
        [|apply Hid; reflexivity];
      assert (Hinv : forall s, physical_resource_id s = x ->
                               id_invariant ev w s)
        by (intros s Hx; right; right; split; [exact Hc|]; rewrite Hx;
            destruct (build_output_self_link _ _ _ Hbo Hsl)
              as (md & H1 & H2);
            exists outp, kr, md; auto);
      rewrite Hc; wp_run; simpl; wp_run; apply Hinv; reflexivity
    | wp_run ].
  all: destruct (String.eqb (RequestType ev) "Update");
    [ wp_run;
      destruct (run_command w _) as [outp|]; [|apply Hid; reflexivity];
      wp_run;
      destruct (json_loads w outp) as [kr|]; [|apply Hid; reflexivity];
      wp_run;
      destruct (build_output kr) as [rd|]; [|apply Hid; reflexivity];
      wp_run
    | wp_run ].
  all: destruct (String.eqb (RequestType ev) "Delete");
    [|apply Hid; reflexivity].
  all: wp_run.
  all: destruct (re_search_fallback_id _) as [[|]|];
    wp_run; simpl; wp_run; try (apply Hid; reflexivity).
  all: destruct (run_command w _); wp_run; apply Hid; reflexivity.
Qed.

Lemma report_id_cases (ev : event) (ctx : context) (w : world) :
  BodyPhysicalResourceId (final_report ev ctx w) = carried_id ev ctx
  \/ (RequestType ev = "Create"
      /\ self_link_of w (BodyPhysicalResourceId (final_report ev ctx w))).
Proof.
  apply (final_report_wp ev ctx w
    (fun body _ =>
       BodyPhysicalResourceId body = carried_id ev ctx
       \/ (RequestType ev = "Create"
           /\ self_link_of w (BodyPhysicalResourceId body)))).
  generalize (try_body_id_invariant ev w). unfold wp.
  destruct (try_body ev w initial_locals) as [r s]. simpl.
  intros Hinv.
  assert (H : forall status reason,
    BodyPhysicalResourceId
      (send ev ctx status (response_data s) (physical_resource_id s) reason)
    = carried_id ev ctx
    \/ (RequestType ev = "Create"
        /\ self_link_of w
             (BodyPhysicalResourceId
                (send ev ctx status (response_data s)
                   (physical_resource_id s) reason)))).
  { intros status reason. unfold send, carried_id. cbn [BodyPhysicalResourceId].
    destruct Hinv as [H | [(p & Hp & H) | (Hc & H)]].
    - rewrite H. left. reflexivity.
    - rewrite H, Hp. left. destruct (truthy (VStr p)); reflexivity.
    - destruct (truthy (physical_resource_id s)); [right; auto | left; reflexivity]. }
  destruct r; apply H.
Qed.

(** C8.  A request that is not a Create, an Update in particular, reports
    the physical id it was given, on every outcome and also from the
    watchdog; a reported id that differs from the one carried by the
    request comes from the Create branch and is the selfLink of the
    created object. *)
Theorem update_keeps_physical_id (ev : event) (ctx : context) (w : world) :
  (forall p, RequestType ev = "Update" -> PhysicalResourceId ev = Some p ->
             BodyPhysicalResourceId (final_report ev ctx w) = VStr p
             /\ BodyPhysicalResourceId (timeout ev ctx) = VStr p)
  /\ (BodyPhysicalResourceId (final_report ev ctx w) <> carried_id ev ctx ->
      RequestType ev = "Create"
      /\ self_link_of w (BodyPhysicalResourceId (final_report ev ctx w))).
Proof.
  split.
  - intros p Hu Hp. split.
    + destruct (report_id_cases ev ctx w) as [H | [Hc _]].
      * rewrite H. unfold carried_id. rewrite Hp. reflexivity.
      * rewrite Hu in Hc. discriminate.
    + unfold timeout, send. simpl. rewrite Hp. reflexivity.
  - intros Hne. destruct (report_id_cases ev ctx w) as [H | H].
    + contradiction.
    + exact H.
Qed.

Lemma update_keeps_physical_id_witness :
  BodyPhysicalResourceId
    (final_report
       (example_event "Update" (VDict [("metadata", VDict [])]) "s3://b/k"
          (Some "/api/v1/namespaces/ns/pods/foo-123"))
       example_context example_world)
  = VStr "/api/v1/namespaces/ns/pods/foo-123"
  /\ BodyPhysicalResourceId
       (timeout
          (example_event "Update" (VDict [("metadata", VDict [])]) "s3://b/k"
             (Some "/api/v1/namespaces/ns/pods/foo-123"))
          example_context)
     = VStr "/api/v1/namespaces/ns/pods/foo-123".
Proof.
  apply (proj1 (update_keeps_physical_id
                  (example_event "Update" (VDict [("metadata", VDict [])])
                     "s3://b/k" (Some "/api/v1/namespaces/ns/pods/foo-123"))
                  example_context example_world)
           "/api/v1/namespaces/ns/pods/foo-123");
    reflexivity.
Defined.

Example create_end_to_end :
  let ev := example_event "Create"
              (VDict [("metadata", VDict [("name", VStr "x")])])
              "s3://b/k" None in
  Data (final_report ev example_context example_world)
  = Some (VDict [("uid", VStr "u1"); ("selfLink", VStr "/api/v1/x");
                 ("name", VStr "x")])
  /\ BodyPhysicalResourceId (final_report ev example_context example_world)
     = VStr "/api/v1/x"
  /\ Status (final_report ev example_context example_world) = SUCCESS.
Proof. repeat split. Qed.

(** ** The Delete branch *)

Lemma fallback_id_shape_search p :
  fallback_id_shape p = true -> re_search_fallback_id (VStr p) = OK true.
Proof.
  unfold fallback_id_shape, re_search_fallback_id.
  destruct (eat_fallback_id p); [|discriminate].
  intros ->. reflexivity.
Qed.

(** C1, as the code has it.  For a Delete request with a physical id whose
    preparation succeeds: when the id has the fallback-id shape the body
    runs no command, and the report is SUCCESS without payload; when the
    search for the fallback-id expression fails the one command of the
    body is the delete command, run after the manifest was written to the
    file it names. *)
Theorem delete_dispatch (ev : event) (ctx : context) (w : world)
  (p bucket key : string) (kms_context manifest : value) :
  RequestType ev = "Delete" ->
  PhysicalResourceId ev = Some p ->
  prepared ev w bucket key kms_context manifest ->
  (fallback_id_shape p = true ->
   body_effects ev w = [ECreateKubeconfig bucket key kms_context;
                        EWriteManifest manifest manifest_file]
   /\ Status (final_report ev ctx w) = SUCCESS
   /\ Data (final_report ev ctx w) = None)
  /\
  (re_search_fallback_id (VStr p) = OK false ->
   body_effects ev w = [ECreateKubeconfig bucket key kms_context;
                        EWriteManifest manifest manifest_file;
                        ERunCommand delete_command]).
Proof.
  intros Hrt Hp (Hpath & Hs3 & Hcfg & Hkc & Hman).
  rewrite Hp in Hman.
  apply (final_report_wp ev ctx w
    (fun body effs =>
       (fallback_id_shape p = true ->
        effs = [ECreateKubeconfig bucket key kms_context;
                EWriteManifest manifest manifest_file]
        /\ Status body = SUCCESS /\ Data body = None)
       /\ (re_search_fallback_id (VStr p) = OK false ->
           effs = [ECreateKubeconfig bucket key kms_context;
                   EWriteManifest manifest manifest_file;
                   ERunCommand delete_command]))).
  unfold try_body. rewrite Hrt, Hp. wp_run.
  destruct (environ_PATH w); [|congruence]. wp_run.
  rewrite Hs3. wp_run. rewrite Hcfg. wp_run. rewrite Hkc. wp_run.
  cbn [physical_resource_id]. rewrite Hman. wp_run. simpl String.eqb.
  wp_run. cbn [physical_resource_id].
  destruct (re_search_fallback_id (VStr p)) as [[|]|e] eqn:Hre.
  - cbn [negb]. wp_run. simpl. split; [auto | discriminate].
  - cbn [negb]. wp_run.
    destruct (run_command w _); wp_run; (split;
      [ intros Hshape; rewrite (fallback_id_shape_search p Hshape) in Hre;
        discriminate
      | intros _; reflexivity ]).
  - unfold re_search_fallback_id in Hre.
    destruct (eat_fallback_id p); discriminate.
Qed.

Lemma delete_dispatch_witness :
  let ev := example_event "Delete" (VDict [("metadata", VDict [])])
              "s3://b/k" (Some example_fallback_id) in
  let manifest :=
    VDict [("metadata",
            VDict [("name",
                    VStr "[$LATEST]0123456789abcdef0123456789abcdef")])] in
  body_effects ev example_world
  = [ECreateKubeconfig "b" "k" (VDict [("QSContext", VStr "ctx")]);
     EWriteManifest manifest manifest_file]
  /\ Status (final_report ev example_context example_world) = SUCCESS
  /\ Data (final_report ev example_context example_world) = None.
Proof.
  intros ev manifest.
  refine (proj1 (delete_dispatch ev example_context example_world
                   example_fallback_id "b" "k"
                   (VDict [("QSContext", VStr "ctx")]) manifest
                   eq_refl eq_refl _) eq_refl).
  unfold prepared. repeat split. discriminate.
Defined.

(** C1 as stated fails: a Delete request with a fallback id whose
    kubeconfig path is no S3 URI is reported as FAILED. *)
Lemma delete_fallback_id_counterexample :
  let ev := example_event "Delete" (VDict [("metadata", VDict [])])
              "http://bucket/key" (Some example_fallback_id) in
  RequestType ev = "Delete"
  /\ fallback_id_shape example_fallback_id = true
  /\ Status (final_report ev example_context example_world) = FAILED
  /\ Status (final_report ev example_context example_world) <> SUCCESS.
Proof. repeat split. discriminate. Qed.

(** The expression also accepts the shape followed by one line feed. *)
Example fallback_id_line_feed :
  fallback_id_shape (example_fallback_id ++ line_feed)%string = false
  /\ re_search_fallback_id (VStr (example_fallback_id ++ line_feed)%string)
     = OK true.
Proof. split; reflexivity. Qed.

(** ** The reports of one invocation *)

Lemma no_send_bind {A B : Type} (m : M A) (k : A -> M B) :
  no_send m -> (forall a, no_send (k a)) -> no_send (bindM m k).
Proof.
  intros Hm Hk s Hs. unfold bindM. specialize (Hm s Hs).
  destruct (m s) as [[a|e] s']; simpl in *; [apply Hk|]; exact Hm.
Qed.

Lemma no_send_ret {A : Type} (a : A) : no_send (ret a).
Proof. intros s Hs. exact Hs. Qed.

Lemma no_send_lift {A : Type} (x : exc A) : no_send (lift x).
Proof. intros s Hs. exact Hs. Qed.

Lemma count_sends_app l1 l2 :
  count_sends (l1 ++ l2) = (count_sends l1 + count_sends l2)%nat.
Proof. unfold count_sends. rewrite filter_app, length_app. reflexivity. Qed.

Lemma no_send_emit e : is_send e = false -> no_send (emit e).
Proof.
  intros He s Hs. simpl. rewrite count_sends_app, Hs.
  unfold count_sends. simpl. rewrite He. reflexivity.
Qed.

Lemma no_send_set_response_data v : no_send (set_response_data v).
Proof. intros s Hs. exact Hs. Qed.

Lemma no_send_set_physical_resource_id v :
  no_send (set_physical_resource_id v).
Proof. intros s Hs. exact Hs. Qed.

Lemma no_send_get_physical_resource_id : no_send get_physical_resource_id.
Proof. intros s Hs. exact Hs. Qed.

Lemma no_send_when b m : no_send m -> no_send (when b m).
Proof. destruct b; [auto | intros _; apply no_send_ret]. Qed.

Lemma no_send_do_run_command w command : no_send (do_run_command w command).
Proof.
  unfold do_run_command. apply no_send_bind.
  - apply no_send_emit. reflexivity.
  - intros _. apply no_send_lift.
Qed.

Ltac no_send_step :=
  lazymatch goal with
  | |- no_send (bindM _ _) => apply no_send_bind; [|intros ?]
  | |- no_send (ret _) => apply no_send_ret
  | |- no_send (lift _) => apply no_send_lift
  | |- no_send (emit _) => apply no_send_emit; reflexivity
  | |- no_send (set_response_data _) => apply no_send_set_response_data
  | |- no_send (set_physical_resource_id _) =>
      apply no_send_set_physical_resource_id
  | |- no_send get_physical_resource_id =>
      apply no_send_get_physical_resource_id
  | |- no_send (do_run_command _ _) => apply no_send_do_run_command
  | |- no_send (when _ _) => apply no_send_when
  | |- no_send (match ?x with _ => _ end) => destruct x
  end.

Lemma try_body_no_send (ev : event) (w : world) : no_send (try_body ev w).
Proof. unfold try_body. repeat no_send_step. Qed.

Lemma body_effects_no_send (ev : event) (w : world) :
  count_sends (body_effects ev w) = 0%nat.
Proof. apply try_body_no_send. reflexivity. Qed.

(** The one report of the handler when the watchdog stays silent. *)
Lemma lambda_handler_one_send (ev : event) (ctx : context) (w : world) :
  count_sends (lambda_handler ev ctx w) = 1%nat.
Proof.
  unfold lambda_handler. rewrite count_sends_app, body_effects_no_send.
  reflexivity.
Qed.

Lemma pending_sends_main_thread (ev : event) (ctx : context) (w : world) :
  pending_sends (main_thread ev ctx w) = 1%nat.
Proof.
  unfold main_thread, pending_sends.
  rewrite filter_app, length_app. simpl.
  generalize (body_effects_no_send ev w). unfold count_sends.
  generalize (body_effects ev w) as l.
  induction l as [|e l IH]; simpl; intros H; [reflexivity|].
  destruct (is_send e); simpl in *; [discriminate | auto].
Qed.

Section Runs.
Variables (ev : event) (ctx : context).

Lemma step_sends c1 c2 :
  step ev ctx c1 c2 ->
  (count_sends (done c2) + pending_sends (todo c2) + fired (timer c1)
   = count_sends (done c1) + pending_sends (todo c1) + fired (timer c2))%nat.
Proof.
  destruct 1 as [e rest t d | rest t d | td d]; simpl.
  - rewrite count_sends_app. unfold count_sends, pending_sends. simpl.
    destruct (is_send e); simpl; lia.
  - unfold pending_sends. simpl. destruct t; simpl; lia.
  - rewrite count_sends_app. unfold count_sends. simpl. lia.
Qed.

Lemma step_timer c1 c2 :
  step ev ctx c1 c2 -> timer c1 = Fired -> timer c2 = Fired.
Proof. destruct 1; simpl; intros H; subst; auto; discriminate. Qed.

Lemma steps_sends c1 c2 :
  steps ev ctx c1 c2 ->
  (count_sends (done c2) + pending_sends (todo c2) + fired (timer c1)
   = count_sends (done c1) + pending_sends (todo c1) + fired (timer c2))%nat.
Proof.
  induction 1 as [c | c1 c2 c3 H12 H23 IH]; [reflexivity|].
  apply step_sends in H12. lia.
Qed.

(** The main thread runs to its end while the timer does not move. *)
Lemma run_main (acts : list action) : forall t d,
  t <> Waiting ->
  exists d', steps ev ctx {| todo := acts; timer := t; done := d |}
                          {| todo := []; timer := t; done := d' |}.
Proof.
  induction acts as [|a rest IH]; intros t d Ht.
  - exists d. apply steps_refl.
  - destruct a as [e|].
    + destruct (IH t (d ++ [e]) Ht) as [d' Hd'].
      exists d'. eapply steps_step; [apply step_do | exact Hd'].
    + destruct (IH t d Ht) as [d' Hd'].
      exists d'. eapply steps_step; [apply step_cancel|].
      replace (cancel t) with t by (destruct t; simpl; congruence). exact Hd'.
Qed.
End Runs.

(** In every run in which the handler returns, the number of reports is
    one when the timer was cancelled in time and two when it had fired. *)
Lemma sends_when_returned (ev : event) (ctx : context) (w : world) c :
  steps ev ctx (start ev ctx w) c ->
  returned c ->
  count_sends (done c) = (1 + fired (timer c))%nat.
Proof.
  intros Hrun Hret. apply steps_sends in Hrun.
  unfold returned in Hret. rewrite Hret in Hrun.
  unfold start in Hrun. simpl in Hrun.
  rewrite pending_sends_main_thread in Hrun.
  unfold pending_sends, count_sends in *. simpl in Hrun. lia.
Qed.

(** C7.  The watchdog can fire while the main path is still running; the
    later [cancel] then does nothing, the main path sends its own report,
    and the invocation has sent two. *)
Theorem watchdog_double_report (ev : event) (ctx : context) (w : world) :
  exists c,
    steps ev ctx (start ev ctx w) c
    /\ returned c
    /\ count_sends (done c) = 2%nat
    /\ exists between,
         done c = ESend (timeout ev ctx) :: between
                  ++ [ESend (final_report ev ctx w)].
Proof.
  destruct (run_main ev ctx (main_thread ev ctx w) Fired
              [ESend (timeout ev ctx)]) as [d' Hrun]; [discriminate|].
  assert (Hall : steps ev ctx (start ev ctx w)
                   {| todo := []; timer := Fired; done := d' |}).
  { eapply steps_step; [apply (step_fire ev ctx) | exact Hrun]. }
  exists {| todo := []; timer := Fired; done := d' |}.
  split; [exact Hall|]. split; [reflexivity|]. split.
  - apply (sends_when_returned ev ctx w _ Hall). reflexivity.
  - clear Hall. revert Hrun. unfold main_thread.
    generalize (body_effects ev w) as l.
    assert (G : forall l pre d',
      steps ev ctx
        {| todo := map ADo l ++ [ACancel; ADo (ESend (final_report ev ctx w))];
           timer := Fired; done := pre |}
        {| todo := []; timer := Fired; done := d' |} ->
      d' = pre ++ l ++ [ESend (final_report ev ctx w)]).
    { induction l as [|e l IH]; intros pre d0 H; simpl in H.
      - inversion H as [|? c2 ? Hs Hr]; subst.
        inversion Hs; subst. simpl in Hr.
        inversion Hr as [|? c3 ? Hs' Hr']; subst.
        inversion Hs'; subst.
        inversion Hr' as [|? c4 ? Hs'' ?]; subst; [reflexivity|].
        inversion Hs''.
      - inversion H as [|? c2 ? Hs Hr]; subst.
        inversion Hs; subst.
        rewrite (IH _ _ Hr), <- app_assoc. reflexivity. }
    intros l Hrun. exists l. apply (G l [ESend (timeout ev ctx)] d' Hrun).
Qed.

(** ** The index expression on a string that ends in an index *)

Lemma take_digits_bracket r y :
  take_digits (r ++ String "[" y)
  = (fst (take_digits r), (snd (take_digits r) ++ String "[" y)%string).
Proof.
  induction r as [|c r IH]; simpl.
  - reflexivity.
  - destruct (is_ascii_digit c) eqn:Ec.
    + rewrite IH. destruct (take_digits r). reflexivity.
    + reflexivity.
Qed.

Lemma take_digits_all ds rest :
  str_forall is_ascii_digit ds = true ->
  take_digits (ds ++ String "]" rest) = (ds, String "]" rest).
Proof.
  induction ds as [|c ds IH]; simpl; intros H.
  - reflexivity.
  - apply andb_true_iff in H as [Hc Hds]. rewrite Hc, (IH Hds). reflexivity.
Qed.

Lemma string_app_assoc (a b c : string) :
  ((a ++ b) ++ c = a ++ (b ++ c))%string.
Proof. induction a; simpl; congruence. Qed.

Lemma string_app_empty (a : string) : (a ++ EmptyString)%string = a.
Proof. induction a; simpl; congruence. Qed.

Lemma match_index_token ds rest :
  digits ds = true ->
  match_index (index_token ds ++ rest) = Some (index_token ds).
Proof.
  unfold digits, index_token. intros H.
  apply andb_true_iff in H as [Hn Hd].
  simpl. rewrite string_app_assoc. simpl.
  rewrite (take_digits_all ds rest Hd).
  destruct ds; [discriminate|]. reflexivity.
Qed.

(** A match never runs into a following opening bracket. *)
Lemma match_index_before_bracket c r y :
  match_index (String c r ++ String "[" y) = match_index (String c r).
Proof.
  unfold match_index. simpl.
  destruct (Ascii.eqb c "[") eqn:Ec.
  - apply Ascii.eqb_eq in Ec; subst c.
    rewrite take_digits_bracket.
    destruct (take_digits r) as [ds rest]. simpl.
    destruct ds; [reflexivity|].
    destruct rest as [|c' rest']; simpl; [reflexivity|].
    reflexivity.
  - destruct c as [[] [] [] [] [] [] [] []]; try reflexivity; discriminate.
Qed.

Lemma take_digits_length r :
  (String.length (fst (take_digits r)) + String.length (snd (take_digits r))
   = String.length r)%nat.
Proof.
  induction r as [|c r IH]; simpl; [reflexivity|].
  destruct (is_ascii_digit c); [|reflexivity].
  destruct (take_digits r). simpl in *. lia.
Qed.

Lemma string_length_app (a b : string) :
  String.length (a ++ b) = (String.length a + String.length b)%nat.
Proof. induction a; simpl; auto. Qed.

Lemma match_index_length s m :
  match_index s = Some m -> (1 <= String.length m <= String.length s)%nat.
Proof.
  unfold match_index. destruct s as [|c r]; [discriminate|].
  destruct c as [[] [] [] [] [] [] [] []]; try discriminate.
  generalize (take_digits_length r).
  destruct (take_digits r) as [ds rest]. simpl.
  destruct ds as [|d ds]; [discriminate|].
  destruct rest as [|c' rest]; [discriminate|].
  destruct c' as [[] [] [] [] [] [] [] []]; try discriminate.
  intros Hl H. inversion H; subst; clear H. simpl in *.
  rewrite string_length_app. simpl. lia.
Qed.

Lemma findall_from_skip_all s : findall_from s (String.length s) = [].
Proof. induction s; simpl; auto. Qed.

Lemma split_from_skip_all s : split_from s (String.length s) = [EmptyString].
Proof. induction s; simpl; auto. Qed.

Lemma index_token_length ds :
  String.length (index_token ds) = (String.length ds + 2)%nat.
Proof. unfold index_token. simpl. rewrite string_length_app. simpl. lia. Qed.

Lemma findall_from_0 c r :
  findall_from (String c r) 0
  = match match_index (String c r) with
    | Some m => m :: findall_from r (String.length m - 1)
    | None => findall_from r 0
    end.
Proof. reflexivity. Qed.

Lemma split_from_0 c r :
  split_from (String c r) 0
  = match match_index (String c r) with
    | Some m => EmptyString :: split_from r (String.length m - 1)
    | None => cons_head c (split_from r 0)
    end.
Proof. reflexivity. Qed.

Lemma findall_token ds :
  digits ds = true -> findall_from (index_token ds) 0 = [index_token ds].
Proof.
  intros H. generalize (match_index_token ds EmptyString H).
  rewrite string_app_empty. intros Hm.
  unfold index_token at 1. rewrite findall_from_0.
  fold (index_token ds). rewrite Hm.
  replace (String.length (index_token ds) - 1)%nat
    with (String.length (ds ++ "]")) by (unfold index_token; simpl; lia).
  rewrite findall_from_skip_all. reflexivity.
Qed.

Lemma split_token ds :
  digits ds = true ->
  split_from (index_token ds) 0 = [EmptyString; EmptyString].
Proof.
  intros H. generalize (match_index_token ds EmptyString H).
  rewrite string_app_empty. intros Hm.
  unfold index_token at 1. rewrite split_from_0.
  fold (index_token ds). rewrite Hm.
  replace (String.length (index_token ds) - 1)%nat
    with (String.length (ds ++ "]")) by (unfold index_token; simpl; lia).
  rewrite split_from_skip_all. reflexivity.
Qed.

Lemma findall_from_app_token ds x : forall skip,
  digits ds = true ->
  (skip <= String.length x)%nat ->
  findall_from (x ++ index_token ds) skip
  = findall_from x skip ++ [index_token ds].
Proof.
  induction x as [|c r IH]; intros skip Hd Hs.
  - simpl in Hs. assert (skip = 0%nat) by lia. subst skip.
    simpl String.append. rewrite (findall_token ds Hd). reflexivity.
  - destruct skip as [|k].
    + change ((String c r ++ index_token ds)%string)
        with (String c (r ++ index_token ds)).
      rewrite findall_from_0.
      change (String c (r ++ index_token ds))
        with (String c r ++ index_token ds)%string.
      unfold index_token at 1. rewrite match_index_before_bracket.
      rewrite (findall_from_0 c r).
      destruct (match_index (String c r)) as [m|] eqn:Hm.
      * apply match_index_length in Hm. simpl in Hm.
        fold (index_token ds). rewrite IH by (auto; lia). reflexivity.
      * fold (index_token ds). rewrite IH by (auto; lia). reflexivity.
    + simpl in Hs |- *. apply IH; [exact Hd | lia].
Qed.

Lemma split_from_nonempty s skip : split_from s skip <> [].
Proof.
  revert skip. induction s as [|c r IH]; intros skip.
  - discriminate.
  - destruct skip; [|apply IH].
    rewrite split_from_0.
    destruct (match_index (String c r)); [discriminate|].
    unfold cons_head. destruct (split_from r 0); discriminate.
Qed.

Lemma cons_head_app c l l' :
  l <> [] -> cons_head c (l ++ l') = cons_head c l ++ l'.
Proof. destruct l; [congruence | reflexivity]. Qed.

Lemma split_from_app_token ds x : forall skip,
  digits ds = true ->
  (skip <= String.length x)%nat ->
  split_from (x ++ index_token ds) skip
  = split_from x skip ++ [EmptyString].
Proof.
  induction x as [|c r IH]; intros skip Hd Hs.
  - simpl in Hs. assert (skip = 0%nat) by lia. subst skip.
    simpl String.append. rewrite (split_token ds Hd). reflexivity.
  - destruct skip as [|k].
    + change ((String c r ++ index_token ds)%string)
        with (String c (r ++ index_token ds)).
      rewrite split_from_0.
      change (String c (r ++ index_token ds))
        with (String c r ++ index_token ds)%string.
      unfold index_token at 1. rewrite match_index_before_bracket.
      rewrite (split_from_0 c r).
      destruct (match_index (String c r)) as [m|] eqn:Hm.
      * apply match_index_length in Hm. simpl in Hm.
        fold (index_token ds). rewrite IH by (auto; lia). reflexivity.
      * fold (index_token ds). rewrite IH by (auto; lia).
        apply cons_head_app, split_from_nonempty.
    + simpl in Hs |- *. apply IH; [exact Hd | lia].
Qed.

(** One piece more than there are matches. *)
Lemma split_findall_length s : forall skip,
  length (split_from s skip) = S (length (findall_from s skip)).
Proof.
  induction s as [|c r IH]; intros skip.
  - reflexivity.
  - destruct skip; [|apply IH].
    rewrite split_from_0, findall_from_0.
    destruct (match_index (String c r)); simpl.
    + rewrite IH. reflexivity.
    + specialize (IH 0%nat). generalize (split_from_nonempty r 0).
      destruct (split_from r 0); [congruence|]. intros _. exact IH.
Qed.

Lemma iter_path_app ps : forall idxs qs js,
  length ps = length idxs ->
  _iter_path (ps ++ qs) (idxs ++ js)
  = _iter_path ps idxs ++ _iter_path qs js.
Proof.
  induction ps as [|p ps IH]; intros idxs qs js Hl.
  - destruct idxs; [reflexivity | discriminate].
  - destruct idxs as [|i idxs]; [discriminate|].
    simpl in Hl. injection Hl as Hl. simpl.
    rewrite (IH idxs qs js Hl), <- app_assoc. reflexivity.
Qed.

Lemma removelast_app_two {A : Type} (l : list A) (x y : A) :
  removelast (l ++ [x; y]) = l ++ [x].
Proof.
  change [x; y] with ([x] ++ [y]).
  rewrite app_assoc, removelast_last. reflexivity.
Qed.

(** The address of a string that ends in a bracketed index ends in the
    empty key. *)
Lemma to_path_trailing_index (pre ds : string) :
  digits ds = true ->
  exists init,
    to_path (TStr (pre ++ index_token ds)) = init ++ [SKey EmptyString].
Proof.
  intros Hd. unfold to_path, re_findall_index, re_split_index.
  rewrite (findall_from_app_token ds pre 0 Hd) by lia.
  rewrite (split_from_app_token ds pre 0 Hd) by lia.
  set (idxs := map (fun i => [int_digits (slice_1_m1 i)])
                 (findall_from pre 0 ++ [index_token ds])).
  assert (E : _iter_path (split_from pre 0 ++ [EmptyString]) idxs
              = _iter_path (split_from pre 0) idxs
                ++ [SKey EmptyString; SList []]).
  { rewrite <- (app_nil_r idxs) at 1. rewrite iter_path_app; [reflexivity|].
    unfold idxs. rewrite length_map, length_app, split_findall_length.
    simpl. lia. }
  rewrite E. exists (_iter_path (split_from pre 0) idxs).
  apply removelast_app_two.
Qed.

(** ** Addresses that traverse never produces *)

Lemma zlist_eqb_eq a : forall b, zlist_eqb a b = true -> a = b.
Proof.
  induction a as [|x a IH]; intros [|y b]; simpl; intros H;
    try discriminate; [reflexivity|].
  apply andb_true_iff in H as [H1 H2].
  apply Z.eqb_eq in H1. rewrite (IH _ H2), H1. reflexivity.
Qed.

Lemma seg_eqb_eq a b : seg_eqb a b = true -> a = b.
Proof.
  destruct a, b; simpl; intros H; try discriminate.
  - apply String.eqb_eq in H. congruence.
  - apply zlist_eqb_eq in H. congruence.
Qed.

Lemma path_eqb_eq a : forall b, path_eqb a b = true -> a = b.
Proof.
  induction a as [|x a IH]; intros [|y b]; simpl; intros H;
    try discriminate; [reflexivity|].
  apply andb_true_iff in H as [H1 H2].
  rewrite (seg_eqb_eq _ _ H1), (IH _ H2). reflexivity.
Qed.

Lemma ends_empty_key_key p k :
  nonempty k = true -> ends_empty_key (p ++ [SKey k]) = false.
Proof.
  intros Hk. unfold ends_empty_key. rewrite last_last.
  destruct k; [discriminate | reflexivity].
Qed.

Lemma ends_empty_key_index p idx : ends_empty_key (p ++ [SList idx]) = false.
Proof. unfold ends_empty_key. rewrite last_last. reflexivity. Qed.

Section Unreached.
Variables (target_path : path) (action : value -> exc value).
Hypothesis Htarget : ends_empty_key target_path = true.

Let transformer : option callback :=
  Some (fun p value =>
          if path_eqb p target_path then action value else OK value).

Lemma transformer_skips p v :
  ends_empty_key p = false -> finish p transformer v = OK v.
Proof.
  intros Hp. simpl. destruct (path_eqb p target_path) eqn:E; [|reflexivity].
  apply path_eqb_eq in E. subst p. congruence.
Qed.

Lemma traverse_unreached v :
  no_empty_key v = true ->
  forall p, ends_empty_key p = false -> traverse v p transformer = OK v.
Proof.
  induction v as [| b | z | f | s | l IH | d IH] using value_rect';
    intros Hv p Hp.
  1-5: rewrite traverse_scalar by reflexivity;
       apply transformer_skips; exact Hp.
  - rewrite traverse_VList.
    assert (H : forall idx, traverse_elems p transformer l idx = OK l).
    { simpl in Hv. clear Hp.
      induction IH as [|x r Hx Hr IHr]; intros idx; [reflexivity|].
      apply andb_true_iff in Hv as [Hvx Hvr]. simpl.
      rewrite (Hx Hvx) by apply ends_empty_key_index. simpl.
      rewrite (IHr Hvr). reflexivity. }
    rewrite H. simpl bind. apply transformer_skips. exact Hp.
  - rewrite traverse_VDict.
    assert (H : traverse_items p transformer d = OK d).
    { simpl in Hv. clear Hp.
      induction IH as [|[k x] r Hx Hr IHr]; [reflexivity|].
      apply andb_true_iff in Hv as [Hvx Hvr].
      apply andb_true_iff in Hvx as [Hk Hvx]. simpl in Hx |- *.
      rewrite (Hx Hvx) by (apply ends_empty_key_key; exact Hk). simpl.
      rewrite (IHr Hvr). reflexivity. }
    rewrite H. simpl bind. apply transformer_skips. exact Hp.
Qed.
End Unreached.

(** C10, as the code has it.  The address of a string that ends in a
    bracketed index has the empty key as its last segment; on a tree
    without the empty string as a map key no address of the traversal
    equals it, [traverse_modify] applies its action nowhere and returns
    the tree as it was. *)
Theorem traverse_modify_trailing_index (pre ds : string) (v : value)
  (action : value -> exc value) :
  digits ds = true ->
  no_empty_key v = true ->
  last (to_path (TStr (pre ++ index_token ds))) (SList []) = SKey EmptyString
  /\ traverse_modify v (TStr (pre ++ index_token ds)) action = OK v.
Proof.
  intros Hd Hv.
  destruct (to_path_trailing_index pre ds Hd) as [init Hinit].
  split.
  - rewrite Hinit. apply last_last.
  - unfold traverse_modify.
    apply traverse_unreached; [|exact Hv | reflexivity].
    unfold ends_empty_key. rewrite Hinit, last_last. reflexivity.
Qed.

Lemma traverse_modify_trailing_index_witness :
  let tree := VDict [("a", VDict [("b", VList [VStr "x"; VStr "y"])])] in
  last (to_path (TStr "a.b[0]")) (SList []) = SKey EmptyString
  /\ traverse_modify tree (TStr "a.b[0]") (fun _ => OK VNone) = OK tree.
Proof.
  intros tree.
  apply (traverse_modify_trailing_index "a.b" "0" tree (fun _ => OK VNone));
    reflexivity.
Defined.

(** C10 as stated fails: the traversal does produce an address that ends
    in the empty key when a map has the empty string as a key, and the
    action is then applied there. *)
Lemma traverse_modify_trailing_index_counterexample :
  let tree := VDict [("a", VDict [("b", VList [VDict [(EmptyString, VInt 5)]])])] in
  traverse_modify tree (TStr "a.b[0]") (fun _ => OK (VInt 9))
  = OK (VDict [("a", VDict [("b", VList [VDict [(EmptyString, VInt 9)]])])])
  /\ traverse_modify tree (TStr "a.b[0]") (fun _ => OK (VInt 9)) <> OK tree.
Proof. split; [reflexivity | discriminate]. Qed.

(** ** The length of an address without bracketed indices *)

Lemma split_from_no_match s :
  findall_from s 0 = [] -> split_from s 0 = [s].
Proof.
  induction s as [|c r IH]; [reflexivity|].
  rewrite findall_from_0, split_from_0.
  destruct (match_index (String c r)); [discriminate|].
  intros H. rewrite (IH H). reflexivity.
Qed.

Lemma split_on_nonempty sep s : split_on sep s <> [].
Proof.
  destruct s as [|c r]; simpl; [discriminate|].
  destruct (Ascii.eqb c sep); [discriminate|].
  destruct (split_on sep r); discriminate.
Qed.

Lemma lstrip_components s :
  forallb nonempty (split_on "." s) = true -> lstrip "." s = s.
Proof.
  destruct s as [|c r]; [reflexivity|]. simpl.
  destruct (Ascii.eqb c "."); [discriminate | reflexivity].
Qed.

Lemma split_on_single sep s : forall h, split_on sep s = [h] -> h = s.
Proof.
  induction s as [|c r IH]; simpl; intros h H.
  - congruence.
  - destruct (Ascii.eqb c sep).
    + injection H as _ H. destruct (split_on_nonempty sep r H).
    + generalize (split_on_nonempty sep r).
      destruct (split_on sep r) as [|h' t]; [congruence|]. intros _.
      injection H as H Ht. subst t h. rewrite (IH h' eq_refl). reflexivity.
Qed.

Lemma last_split_on_cons c r :
  r <> EmptyString ->
  last (split_on "." (String c r)) EmptyString <> EmptyString ->
  last (split_on "." r) EmptyString <> EmptyString.
Proof.
  intros Hr. simpl. generalize (split_on_nonempty "." r).
  generalize (split_on_single "." r).
  destruct (split_on "." r) as [|h t]; [congruence|]. intros Hsingle _.
  destruct (Ascii.eqb c ".").
  - exact (fun H => H).
  - destruct t as [|h2 t].
    + intros _. rewrite (Hsingle h eq_refl). exact Hr.
    + exact (fun H => H).
Qed.

Lemma rstrip_last_component s :
  last (split_on "." s) EmptyString <> EmptyString -> rstrip "." s = s.
Proof.
  induction s as [|c r IH]; [reflexivity|]. intros H.
  destruct r as [|c' r'].
  - simpl in *. destruct (Ascii.eqb c "."); simpl in *;
      [congruence | reflexivity].
  - assert (Hr : rstrip "." (String c' r') = String c' r').
    { apply IH. apply (last_split_on_cons c); [discriminate | exact H]. }
    change (rstrip "." (String c (String c' r')))
      with (match rstrip "." (String c' r') with
            | EmptyString => if Ascii.eqb c "." then EmptyString
                             else String c EmptyString
            | r0 => String c r0
            end).
    rewrite Hr. reflexivity.
Qed.

Lemma last_nonempty (l : list string) :
  l <> [] -> forallb nonempty l = true -> last l EmptyString <> EmptyString.
Proof.
  induction l as [|x l IH]; [congruence|]. intros _ H.
  simpl in H. apply andb_true_iff in H as [Hx Hl].
  destruct l as [|y l].
  - simpl. destruct x; [discriminate | congruence].
  - apply IH; [discriminate | exact Hl].
Qed.

Lemma strip_components s :
  forallb nonempty (components s) = true -> strip "." s = s.
Proof.
  intros H. unfold strip. rewrite (lstrip_components s H).
  apply rstrip_last_component, last_nonempty;
    [apply split_on_nonempty | exact H].
Qed.

Lemma filter_all {A : Type} (f : A -> bool) (l : list A) :
  forallb f l = true -> filter f l = l.
Proof.
  induction l as [|x l IH]; simpl; [reflexivity|]. intros H.
  apply andb_true_iff in H as [-> Hl]. rewrite (IH Hl). reflexivity.
Qed.

(** For any string without a match of the index expression, all of whose
    '.'-delimited components are non-empty, [to_path] yields the
    components as key segments. *)
Lemma to_path_length_without_index (s : string) :
  re_findall_index s = [] ->
  forallb nonempty (components s) = true ->
  to_path (TStr s) = map SKey (components s)
  /\ length (to_path (TStr s)) = length (nonempty_components s).
Proof.
  intros Hno Hvalid.
  assert (E : to_path (TStr s) = map SKey (components s)).
  { unfold to_path, re_split_index. rewrite Hno.
    rewrite (split_from_no_match s Hno). cbn [map _iter_path].
    rewrite (strip_components s Hvalid).
    apply removelast_last. }
  split; [exact E|].
  rewrite E, length_map. unfold nonempty_components.
  rewrite (filter_all _ _ Hvalid). reflexivity.
Qed.

(** C3 as stated fails: an interior bracketed index is a segment of its
    own, so "a[0].b" with its two components has three segments. *)
Lemma to_path_interior_index_counterexample :
  to_path (TStr "a[0].b") = [SKey "a"; SList [0]; SKey "b"]
  /\ nonempty_components "a[0].b" = ["a[0]"; "b"]
  /\ length (to_path (TStr "a[0].b"))
     <> length (nonempty_components "a[0].b").
Proof. repeat split. discriminate. Qed.

(** ** The address of a valid address string *)

Lemma to_path_scan_segs s : to_path (TStr s) = removelast (scan_segs s).
Proof. reflexivity. Qed.

Lemma match_index_other c r :
  no_bracket c = true -> match_index (String c r) = None.
Proof.
  unfold no_bracket.
  destruct c as [[] [] [] [] [] [] [] []]; try reflexivity; discriminate.
Qed.

Lemma findall_from_skip x r :
  findall_from (x ++ r) (String.length x) = findall_from r 0.
Proof. induction x as [|c x IH]; [reflexivity | exact IH]. Qed.

Lemma split_from_skip x r :
  split_from (x ++ r) (String.length x) = split_from r 0.
Proof. induction x as [|c x IH]; [reflexivity | exact IH]. Qed.

Lemma prepend_cons_head c t l :
  l <> [] -> cons_head c (prepend t l) = prepend (String c t) l.
Proof. destruct l; [congruence | reflexivity]. Qed.

(** Text without an opening bracket goes into the current piece. *)
Lemma scan_text t r :
  str_forall no_bracket t = true ->
  split_from (t ++ r) 0 = prepend t (split_from r 0)
  /\ findall_from (t ++ r) 0 = findall_from r 0.
Proof.
  induction t as [|c t IH]; intros H.
  - split; [|reflexivity]. simpl.
    generalize (split_from_nonempty r 0).
    destruct (split_from r 0); [congruence | reflexivity].
  - simpl in H. apply andb_true_iff in H as [Hc Ht].
    destruct (IH Ht) as [IH1 IH2].
    change (String c t ++ r)%string with (String c (t ++ r)).
    rewrite split_from_0, findall_from_0, (match_index_other c _ Hc).
    rewrite IH1, IH2. split; [|reflexivity].
    apply prepend_cons_head, split_from_nonempty.
Qed.

(** A bracketed index ends the current piece. *)
Lemma scan_token ds r :
  digits ds = true ->
  split_from (index_token ds ++ r) 0 = EmptyString :: split_from r 0
  /\ findall_from (index_token ds ++ r) 0
     = index_token ds :: findall_from r 0.
Proof.
  intros Hd. pose proof (match_index_token ds r Hd) as Hm.
  assert (E : (index_token ds ++ r)%string
              = String "[" ((ds ++ "]") ++ r)) by reflexivity.
  rewrite E in Hm |- *. rewrite split_from_0, findall_from_0, Hm.
  replace (String.length (index_token ds) - 1)%nat
    with (String.length (ds ++ "]")) by (unfold index_token; simpl; lia).
  rewrite split_from_skip, findall_from_skip. split; reflexivity.
Qed.

Lemma drop_last_bracket ds : drop_last (ds ++ "]") = ds.
Proof.
  induction ds as [|c ds IH]; [reflexivity|]. simpl.
  rewrite IH. destruct ds; reflexivity.
Qed.

Lemma idx_of_match_token ds : idx_of_match (index_token ds) = [int_digits ds].
Proof.
  unfold idx_of_match, index_token. simpl. rewrite drop_last_bracket.
  reflexivity.
Qed.

Lemma scan_segs_text_token t ds r :
  str_forall no_bracket t = true ->
  digits ds = true ->
  scan_segs (t ++ index_token ds ++ r)
  = piece_keys t ++ SList [int_digits ds] :: scan_segs r.
Proof.
  intros Ht Hd. unfold scan_segs, re_split_index, re_findall_index.
  destruct (scan_text t (index_token ds ++ r) Ht) as [-> ->].
  destruct (scan_token ds r Hd) as [-> ->].
  simpl. rewrite string_app_empty, idx_of_match_token. reflexivity.
Qed.

Lemma scan_segs_text t :
  str_forall no_bracket t = true ->
  scan_segs t = piece_keys t ++ [SList []].
Proof.
  intros Ht. unfold scan_segs, re_split_index, re_findall_index.
  destruct (scan_text t EmptyString Ht) as [H1 H2].
  rewrite string_app_empty in H1, H2. rewrite H1, H2.
  simpl. rewrite string_app_empty. reflexivity.
Qed.

Lemma str_forall_app p a b :
  str_forall p (a ++ b) = str_forall p a && str_forall p b.
Proof.
  induction a as [|c a IH]; simpl; [reflexivity|].
  rewrite IH, andb_assoc. reflexivity.
Qed.

Lemma str_forall_impl (p q : ascii -> bool) s :
  (forall c, p c = true -> q c = true) ->
  str_forall p s = true -> str_forall q s = true.
Proof.
  intros Hpq. induction s as [|c s IH]; simpl; [reflexivity|].
  intros H. apply andb_true_iff in H as [Hc Hs].
  rewrite (Hpq c Hc), (IH Hs). reflexivity.
Qed.

Lemma valid_key_no_bracket k :
  valid_key k = true -> str_forall no_bracket k = true.
Proof.
  unfold valid_key. intros H. apply andb_true_iff in H as [_ H].
  revert H. apply str_forall_impl. unfold key_char, no_bracket.
  intros c Hc. apply andb_true_iff in Hc as [Hc _].
  apply andb_true_iff in Hc as [_ Hc]. exact Hc.
Qed.

Lemma valid_key_no_dot k :
  valid_key k = true -> str_forall no_dot k = true.
Proof.
  unfold valid_key. intros H. apply andb_true_iff in H as [_ H].
  revert H. apply str_forall_impl. unfold key_char, no_dot.
  intros c Hc. apply andb_true_iff in Hc as [Hc _].
  apply andb_true_iff in Hc as [Hc _]. exact Hc.
Qed.

Lemma dotted_keys_app ks k :
  dotted_keys (ks ++ [k]) = (dotted_keys ks ++ String "." k)%string.
Proof.
  unfold dotted_keys. induction ks as [|x ks IH]; simpl.
  - rewrite string_app_empty. reflexivity.
  - rewrite IH, string_app_assoc. reflexivity.
Qed.

Lemma dotted_keys_no_bracket ks :
  forallb valid_key ks = true -> str_forall no_bracket (dotted_keys ks) = true.
Proof.
  unfold dotted_keys. induction ks as [|k ks IH]; simpl; [reflexivity|].
  intros H. apply andb_true_iff in H as [Hk Hks].
  rewrite str_forall_app, (valid_key_no_bracket k Hk), (IH Hks). reflexivity.
Qed.

(** Splitting at the dots gives back the keys. *)
Lemma split_on_no_dot k r :
  str_forall no_dot k = true ->
  split_on "." (k ++ r) = prepend k (split_on "." r).
Proof.
  induction k as [|c k IH]; simpl; intros H.
  - generalize (split_on_nonempty "." r).
    destruct (split_on "." r); [congruence | reflexivity].
  - apply andb_true_iff in H as [Hc Hk]. unfold no_dot in Hc.
    destruct (Ascii.eqb c "."); [discriminate|].
    rewrite (IH Hk). generalize (split_on_nonempty "." r).
    destruct (split_on "." r); [congruence | reflexivity].
Qed.

Lemma split_on_keys k ks :
  forallb valid_key (k :: ks) = true ->
  split_on "." (k ++ dotted_keys ks) = k :: ks.
Proof.
  revert k. induction ks as [|k2 ks IH]; intros k H.
  - simpl in H. apply andb_true_iff in H as [Hk _].
    rewrite (split_on_no_dot k _ (valid_key_no_dot k Hk)).
    simpl. rewrite string_app_empty. reflexivity.
  - simpl in H. apply andb_true_iff in H as [Hk Hks].
    rewrite (split_on_no_dot k _ (valid_key_no_dot k Hk)).
    change (dotted_keys (k2 :: ks))
      with (String "." (k2 ++ dotted_keys ks)).
    change (split_on "." (String "." (k2 ++ dotted_keys ks)))
      with (EmptyString :: split_on "." (k2 ++ dotted_keys ks)).
    rewrite (IH k2 Hks). simpl. rewrite string_app_empty. reflexivity.
Qed.

Lemma piece_keys_dotted_keys ks :
  forallb valid_key ks = true ->
  piece_keys (dotted_keys ks) = keys_segs ks.
Proof.
  destruct ks as [|k ks]; [reflexivity|]. intros H.
  assert (Hsplit := split_on_keys k ks H).
  unfold piece_keys, strip, keys_segs.
  change (dotted_keys (k :: ks)) with (String "." (k ++ dotted_keys ks)).
  change (lstrip "." (String "." (k ++ dotted_keys ks)))
    with (lstrip "." (k ++ dotted_keys ks)).
  assert (Hall : forallb nonempty (split_on "." (k ++ dotted_keys ks)) = true).
  { rewrite Hsplit. clear Hsplit. revert H. generalize (k :: ks) as l.
    induction l as [|x l IH]; simpl; [reflexivity|]. intros H.
    apply andb_true_iff in H as [Hx Hl]. rewrite (IH Hl), andb_true_r.
    unfold valid_key in Hx. apply andb_true_iff in Hx as [Hx _]. exact Hx. }
  rewrite (lstrip_components _ Hall).
  rewrite rstrip_last_component
    by (apply last_nonempty; [apply split_on_nonempty | exact Hall]).
  rewrite Hsplit. reflexivity.
Qed.

Lemma after_indices_app R idxs i :
  SList [int_digits i] :: after_indices R idxs = index_segs (i :: idxs) ++ R.
Proof.
  revert i. induction idxs as [|j js IH]; intros i; [reflexivity|].
  simpl after_indices. rewrite IH. reflexivity.
Qed.

Lemma ends_in_index_cons c a :
  a <> [] -> ends_in_index (c :: a) = ends_in_index a.
Proof. unfold ends_in_index. destruct a; [congruence | reflexivity]. Qed.

Lemma address_segs_cons c a :
  a <> [] -> address_segs (c :: a) = component_segs c ++ address_segs a.
Proof.
  intros Ha. unfold address_segs. rewrite (ends_in_index_cons c a Ha).
  simpl. rewrite app_assoc. reflexivity.
Qed.

Lemma keys_segs_snoc ks k : keys_segs (ks ++ [k]) = map SKey ks ++ [SKey k].
Proof.
  unfold keys_segs. destruct (ks ++ [k]) eqn:E.
  - destruct ks; discriminate.
  - rewrite <- E, map_app. reflexivity.
Qed.

Lemma expected_cons ks c a :
  expected ks (c :: a)
  = match cidx c with
    | [] => expected (ks ++ [ckey c]) a
    | i :: idxs =>
        map SKey (ks ++ [ckey c])
        ++ SList [int_digits i] :: after_indices (expected [] a) idxs
    end.
Proof. reflexivity. Qed.

Lemma expected_address_segs a : forall ks,
  a <> [] -> expected ks a = map SKey ks ++ address_segs a.
Proof.
  induction a as [|c a IH]; intros ks Ha; [congruence|].
  destruct a as [|c2 a].
  - unfold address_segs, ends_in_index, component_segs. simpl.
    destruct (cidx c) as [|i idxs].
    + rewrite keys_segs_snoc. reflexivity.
    + rewrite after_indices_app, map_app, <- !app_assoc.
      simpl. reflexivity.
  - rewrite address_segs_cons by discriminate.
    unfold component_segs. rewrite expected_cons.
    destruct (cidx c) as [|i idxs].
    + rewrite IH by discriminate. rewrite map_app, <- app_assoc. reflexivity.
    + rewrite (IH []) by discriminate. cbn [map app].
      rewrite after_indices_app, map_app, <- !app_assoc. reflexivity.
Qed.

Lemma scan_segs_token ds r :
  digits ds = true ->
  scan_segs (index_token ds ++ r)
  = SKey EmptyString :: SList [int_digits ds] :: scan_segs r.
Proof. exact (scan_segs_text_token EmptyString ds r eq_refl). Qed.

Lemma scan_segs_indices idxs : forall rest R,
  forallb digits idxs = true ->
  scan_segs rest = R ++ [SList []] ->
  scan_segs (concat_str (map index_token idxs) ++ rest)
  = after_indices R idxs ++ [SList []].
Proof.
  induction idxs as [|j js IH]; intros rest R Hd Hrest; [exact Hrest|].
  simpl in Hd. apply andb_true_iff in Hd as [Hj Hjs].
  change (concat_str (map index_token (j :: js)))
    with (index_token j ++ concat_str (map index_token js))%string.
  rewrite string_app_assoc.
  rewrite (scan_segs_token j _ Hj).
  rewrite (IH rest R Hjs Hrest). reflexivity.
Qed.

Lemma forallb_snoc {A : Type} (f : A -> bool) l x :
  forallb f (l ++ [x]) = forallb f l && f x.
Proof. rewrite forallb_app. simpl. rewrite andb_true_r. reflexivity. Qed.

Lemma scan_segs_dotted a : forall ks,
  forallb valid_key ks = true ->
  forallb valid_component a = true ->
  scan_segs (dotted_keys ks ++ dotted a) = expected ks a ++ [SList []].
Proof.
  induction a as [|c a IH]; intros ks Hks Ha.
  - unfold dotted. simpl. rewrite string_app_empty.
    rewrite (scan_segs_text _ (dotted_keys_no_bracket ks Hks)).
    rewrite (piece_keys_dotted_keys ks Hks). reflexivity.
  - simpl in Ha. apply andb_true_iff in Ha as [Hc Ha].
    unfold valid_component in Hc. apply andb_true_iff in Hc as [Hk Hd].
    assert (Hks' : forallb valid_key (ks ++ [ckey c]) = true)
      by (rewrite forallb_snoc, Hks, Hk; reflexivity).
    assert (E : (dotted_keys ks ++ dotted (c :: a))%string
                = (dotted_keys (ks ++ [ckey c])
                   ++ concat_str (map index_token (cidx c)) ++ dotted a)%string).
    { rewrite dotted_keys_app. unfold dotted, render_component. simpl.
      rewrite !string_app_assoc. reflexivity. }
    rewrite E, expected_cons. clear E.
    destruct (cidx c) as [|i idxs].
    + simpl. apply IH; assumption.
    + simpl in Hd. apply andb_true_iff in Hd as [Hi Hidxs].
      change (concat_str (map index_token (i :: idxs)))
        with (index_token i ++ concat_str (map index_token idxs))%string.
      rewrite string_app_assoc.
      rewrite (scan_segs_text_token _ i _
                 (dotted_keys_no_bracket _ Hks') Hi).
      rewrite (piece_keys_dotted_keys _ Hks'), keys_segs_snoc, map_app.
      rewrite (scan_segs_indices idxs (dotted a) (expected [] a) Hidxs
                 (IH [] eq_refl Ha)).
      cbn [map]. rewrite <- !app_assoc. reflexivity.
Qed.

Lemma scan_segs_leading_dot s : scan_segs (String "." s) = scan_segs s.
Proof.
  unfold scan_segs, re_split_index, re_findall_index.
  rewrite split_from_0, findall_from_0, match_index_other by reflexivity.
  generalize (split_from_nonempty s 0).
  destruct (split_from s 0) as [|p ps]; [congruence|]. intros _.
  reflexivity.
Qed.

Lemma dotted_render a : a <> [] -> dotted a = String "." (render a).
Proof.
  induction a as [|c a IH]; [congruence|]. intros _.
  destruct a as [|c2 a].
  - unfold dotted, render. simpl. rewrite string_app_empty. reflexivity.
  - unfold dotted, render in *. 
    change (map (fun c0 => String "." (render_component c0)) (c :: c2 :: a))
      with (String "." (render_component c)
            :: map (fun c0 => String "." (render_component c0)) (c2 :: a)).
    change (concat_str (?x :: ?l)) with (x ++ concat_str l)%string.
    rewrite IH by discriminate. reflexivity.
Qed.

(** The address of a valid address string, segment by segment. *)
Lemma to_path_valid_address a :
  valid_address a = true -> to_path (TStr (render a)) = address_segs a.
Proof.
  intros Hv. assert (Ha : a <> []) by (destruct a; [discriminate|discriminate]).
  assert (Hall : forallb valid_component a = true)
    by (destruct a; [discriminate | exact Hv]).
  rewrite to_path_scan_segs, <- scan_segs_leading_dot, <- (dotted_render a Ha).
  generalize (scan_segs_dotted a [] eq_refl Hall).
  simpl String.append. intros ->.
  rewrite removelast_last, (expected_address_segs a [] Ha). reflexivity.
Qed.

Lemma digits_no_dot ds :
  str_forall is_ascii_digit ds = true -> str_forall no_dot ds = true.
Proof.
  apply str_forall_impl. intros c. unfold is_ascii_digit, no_dot, code.
  destruct c as [[] [] [] [] [] [] [] []]; simpl; intros H;
    try reflexivity; discriminate.
Qed.

Lemma render_component_no_dot c :
  valid_component c = true ->
  str_forall no_dot (render_component c) = true.
Proof.
  unfold valid_component, render_component. intros H.
  apply andb_true_iff in H as [Hk Hd].
  rewrite str_forall_app, (valid_key_no_dot _ Hk). simpl.
  induction (cidx c) as [|i idxs IH]; [reflexivity|].
  simpl in Hd. apply andb_true_iff in Hd as [Hi Hidxs].
  unfold digits in Hi. apply andb_true_iff in Hi as [_ Hi].
  simpl. rewrite !str_forall_app, (digits_no_dot i Hi), (IH Hidxs).
  reflexivity.
Qed.

Lemma render_component_nonempty c :
  valid_component c = true -> nonempty (render_component c) = true.
Proof.
  unfold valid_component, valid_key, render_component. intros H.
  apply andb_true_iff in H as [Hk _]. apply andb_true_iff in Hk as [Hk _].
  destruct (ckey c); [discriminate | reflexivity].
Qed.

Lemma split_on_join xs :
  xs <> [] ->
  forallb (fun x => str_forall no_dot x) xs = true ->
  split_on "." (join "." xs) = xs.
Proof.
  induction xs as [|x xs IH]; [congruence|]. intros _ H.
  simpl in H. apply andb_true_iff in H as [Hx Hxs].
  destruct xs as [|y xs].
  - simpl. rewrite <- (string_app_empty x) at 1.
    rewrite (split_on_no_dot x _ Hx). simpl.
    rewrite string_app_empty. reflexivity.
  - change (join "." (x :: y :: xs))
      with (x ++ String "." (join "." (y :: xs)))%string.
    rewrite (split_on_no_dot x _ Hx).
    change (split_on "." (String "." (join "." (y :: xs))))
      with (EmptyString :: split_on "." (join "." (y :: xs))).
    rewrite IH by (discriminate || exact Hxs).
    simpl. rewrite string_app_empty. reflexivity.
Qed.

Lemma components_render a :
  valid_address a = true ->
  components (render a) = map render_component a.
Proof.
  intros Hv. unfold components, render. apply split_on_join.
  - destruct a; discriminate.
  - assert (Hall : forallb valid_component a = true)
      by (destruct a; [discriminate | exact Hv]).
    clear Hv. induction a as [|c a IH]; [reflexivity|].
    simpl in Hall |- *. apply andb_true_iff in Hall as [Hc Ha].
    rewrite (render_component_no_dot c Hc), (IH Ha). reflexivity.
Qed.

Lemma nonempty_components_render a :
  valid_address a = true ->
  length (nonempty_components (render a)) = length a.
Proof.
  intros Hv. unfold nonempty_components.
  rewrite (components_render a Hv).
  assert (Hall : forallb valid_component a = true)
    by (destruct a; [discriminate | exact Hv]).
  rewrite filter_all, length_map; [reflexivity|].
  clear Hv. induction a as [|c a IH]; [reflexivity|].
  simpl in Hall |- *. apply andb_true_iff in Hall as [Hc Ha].
  rewrite (render_component_nonempty c Hc), (IH Ha). reflexivity.
Qed.

Lemma index_segs_length idxs :
  length (index_segs idxs) = (length idxs + pred (length idxs))%nat.
Proof.
  induction idxs as [|i idxs IH]; [reflexivity|].
  destruct idxs as [|j idxs]; [reflexivity|].
  change (index_segs (i :: j :: idxs))
    with (SList [int_digits i] :: SKey EmptyString :: index_segs (j :: idxs)).
  simpl length in *. rewrite IH. lia.
Qed.

Lemma flat_map_component_segs_length a :
  length (flat_map component_segs a)
  = (length a + index_count a + adjacent_index_pairs a)%nat.
Proof.
  unfold index_count, adjacent_index_pairs.
  induction a as [|c a IH]; [reflexivity|].
  simpl. rewrite length_app, IH, index_segs_length. lia.
Qed.

(** C3, as the code has it.  For a valid address string that does not end
    in a bracketed index, [to_path] yields a key segment for each
    component, an index segment for each bracketed index, and an empty key
    segment between two indices that follow each other directly: the
    length is the number of '.'-delimited non-empty components, plus the
    number of bracketed indices, plus the number of such pairs. *)
Theorem to_path_length_valid_address (a : list component) :
  valid_address a = true ->
  ends_in_index a = false ->
  to_path (TStr (render a)) = flat_map component_segs a
  /\ length (nonempty_components (render a)) = length a
  /\ length (to_path (TStr (render a)))
     = (length (nonempty_components (render a))
        + index_count a + adjacent_index_pairs a)%nat.
Proof.
  intros Hv Hend.
  assert (E : to_path (TStr (render a)) = flat_map component_segs a).
  { rewrite (to_path_valid_address a Hv). unfold address_segs.
    rewrite Hend. apply app_nil_r. }
  split; [exact E|]. split; [exact (nonempty_components_render a Hv)|].
  rewrite E, (nonempty_components_render a Hv).
  apply flat_map_component_segs_length.
Qed.

Lemma to_path_length_valid_address_witness :
  let a := [{| ckey := "spec"; cidx := [] |};
            {| ckey := "containers"; cidx := ["0"; "12"] |};
            {| ckey := "image"; cidx := [] |}] in
  render a = "spec.containers[0][12].image"
  /\ to_path (TStr (render a)) = flat_map component_segs a
  /\ length (nonempty_components (render a)) = length a
  /\ length (to_path (TStr (render a)))
     = (length (nonempty_components (render a))
        + index_count a + adjacent_index_pairs a)%nat.
Proof.
  intros a. split; [reflexivity|].
  apply (to_path_length_valid_address a); reflexivity.
Defined.

(** Without bracketed indices the length is the number of components. *)
Corollary to_path_length_keys_only (a : list component) :
  valid_address a = true ->
  forallb (fun c => match cidx c with [] => true | _ => false end) a = true ->
  length (to_path (TStr (render a)))
  = length (nonempty_components (render a)).
Proof.
  intros Hv Hk.
  assert (Hend : ends_in_index a = false).
  { unfold ends_in_index. clear Hv.
    induction a as [|c a IH]; [reflexivity|].
    simpl in Hk. apply andb_true_iff in Hk as [Hc Ha].
    destruct a as [|c2 a]; [simpl; destruct (cidx c); [reflexivity|discriminate]|].
    exact (IH Ha). }
  rewrite (to_path_valid_address a Hv). unfold address_segs.
  rewrite Hend, app_nil_r, flat_map_component_segs_length.
  rewrite (nonempty_components_render a Hv).
  assert (H0 : index_count a = 0%nat /\ adjacent_index_pairs a = 0%nat).
  { unfold index_count, adjacent_index_pairs. clear Hv Hend.
    induction a as [|c a IH]; [split; reflexivity|].
    simpl in Hk. apply andb_true_iff in Hk as [Hc Ha].
    destruct (IH Ha) as [H1 H2]. simpl.
    destruct (cidx c); [|discriminate]. simpl. rewrite H1, H2. split; reflexivity. }
  destruct H0 as [-> ->]. lia.
Qed.

(** * Further properties of the code *)

(** ** traverse without a callback, and with the identity *)

Lemma traverse_copy_elems (cb : option callback) l :
  Forall (fun v => forall p, traverse v p cb = OK v) l ->
  forall p idx, traverse_elems p cb l idx = OK l.
Proof.
  induction 1 as [|v r Hv Hr IH]; intros p idx; simpl; [reflexivity|].
  rewrite Hv. simpl. rewrite IH. reflexivity.
Qed.

Lemma traverse_copy_items (cb : option callback) d :
  Forall (fun kv => forall p, traverse (snd kv) p cb = OK (snd kv)) d ->
  forall p, traverse_items p cb d = OK d.
Proof.
  induction 1 as [|[k v] r Hv Hr IH]; intros p; simpl; [reflexivity|].
  simpl in Hv. rewrite Hv. simpl. rewrite IH. reflexivity.
Qed.

Lemma traverse_copy (cb : option callback) :
  (forall p x, finish p cb x = OK x) ->
  forall v p, traverse v p cb = OK v.
Proof.
  intros Hcb v.
  induction v as [| b | z | f | s | l IH | d IH] using value_rect'; intros p.
  1-5: rewrite traverse_scalar by reflexivity; apply Hcb.
  - rewrite traverse_VList, (traverse_copy_elems cb l IH). simpl. apply Hcb.
  - rewrite traverse_VDict, (traverse_copy_items cb d IH). simpl. apply Hcb.
Qed.

(** X1.  Without a callback [traverse] returns a copy equal to its
    argument, from any starting path; so does [traverse_modify_all] with
    the identity as its action. *)
Theorem traverse_identity (v : value) (p : path) :
  traverse v p None = OK v
  /\ traverse_modify_all v (fun x => OK x) = OK v.
Proof.
  split.
  - apply traverse_copy. reflexivity.
  - unfold traverse_modify_all. apply traverse_copy. reflexivity.
Qed.

(** ** traverse_modify as a descent along the target *)

Lemma path_eqb_refl p : path_eqb p p = true.
Proof.
  induction p as [|s p IH]; [reflexivity|]. simpl. rewrite IH, andb_true_r.
  destruct s as [k|l]; simpl; [apply String.eqb_refl|].
  induction l as [|x l IHl]; [reflexivity|]. simpl.
  rewrite Z.eqb_refl, IHl. reflexivity.
Qed.

Lemma path_eqb_longer p s t : path_eqb p (p ++ s :: t) = false.
Proof.
  destruct (path_eqb p (p ++ s :: t)) eqn:E; [|reflexivity].
  apply path_eqb_eq in E. apply (f_equal (@length seg)) in E.
  rewrite length_app in E. simpl in E. lia.
Qed.

Section Descent.
Variables (target_path : path) (action : value -> exc value).

Lemma modify_cb_off p v :
  (forall t, target_path <> p ++ t) ->
  finish p (modify_cb target_path action) v = OK v.
Proof.
  intros H. simpl. destruct (path_eqb p target_path) eqn:E; [|reflexivity].
  apply path_eqb_eq in E. destruct (H []). rewrite app_nil_r. auto.
Qed.

(** Below a path that does not lead to the target nothing changes. *)
Lemma traverse_off_target v : forall p,
  (forall t, target_path <> p ++ t) ->
  traverse v p (modify_cb target_path action) = OK v.
Proof.
  induction v as [| b | z | f | s | l IH | d IH] using value_rect';
    intros p Hp.
  1-5: rewrite traverse_scalar by reflexivity; apply modify_cb_off; exact Hp.
  - rewrite traverse_VList.
    assert (H : forall idx,
      traverse_elems p (modify_cb target_path action) l idx = OK l).
    { induction IH as [|x r Hx Hr IHr]; intros idx; [reflexivity|].
      simpl. rewrite Hx.
      - simpl. rewrite IHr. reflexivity.
      - intros t E. apply (Hp (SList [idx] :: t)).
        rewrite E, <- app_assoc. reflexivity. }
    rewrite H. simpl bind. apply modify_cb_off. exact Hp.
  - rewrite traverse_VDict.
    assert (H : traverse_items p (modify_cb target_path action) d = OK d).
    { induction IH as [|[k x] r Hx Hr IHr]; [reflexivity|].
      simpl in Hx |- *. rewrite Hx.
      - simpl. rewrite IHr. reflexivity.
      - intros t E. apply (Hp (SKey k :: t)).
        rewrite E, <- app_assoc. reflexivity. }
    rewrite H. simpl bind. apply modify_cb_off. exact Hp.
Qed.
End Descent.

Section DescentMain.
Variable action : value -> exc value.

Lemma traverse_elems_off target_path p l :
  (forall idx t, target_path <> p ++ SList [idx] :: t) ->
  forall idx,
    traverse_elems p (modify_cb target_path action) l idx = OK l.
Proof.
  intros Hoff. induction l as [|x r IH]; intros idx; [reflexivity|].
  simpl. rewrite traverse_off_target.
  - simpl. rewrite IH. reflexivity.
  - intros t E. apply (Hoff idx t). rewrite E, <- app_assoc. reflexivity.
Qed.

Lemma traverse_items_off target_path p d :
  (forall k t, target_path <> p ++ SKey k :: t) ->
  traverse_items p (modify_cb target_path action) d = OK d.
Proof.
  intros Hoff. induction d as [|[k x] r IH]; [reflexivity|].
  simpl. rewrite traverse_off_target.
  - simpl. rewrite IH. reflexivity.
  - intros t E. apply (Hoff k t). rewrite E, <- app_assoc. reflexivity.
Qed.

Lemma finish_on_target p x :
  finish p (modify_cb (p ++ []) action) x = action x.
Proof. simpl. rewrite app_nil_r, path_eqb_refl. reflexivity. Qed.

Lemma finish_above_target p s t x :
  finish p (modify_cb (p ++ s :: t) action) x = OK x.
Proof. simpl. rewrite path_eqb_longer. reflexivity. Qed.

Lemma modify_at_scalar t v :
  is_scalar v = true -> t <> [] -> modify_at t action v = OK v.
Proof.
  intros Hs Ht. destruct t as [|[k|[|i [|j l]]] t']; [congruence| | | |];
    destruct v; try reflexivity; discriminate.
Qed.

Lemma traverse_descent v : forall p t,
  traverse v p (modify_cb (p ++ t) action) = modify_at t action v.
Proof.
  induction v as [| b | z | f | s | l IH | d IH] using value_rect';
    intros p t.
  1-5: rewrite traverse_scalar by reflexivity;
       (destruct t as [|s0 t'];
        [ apply finish_on_target
        | rewrite finish_above_target; symmetry;
          apply modify_at_scalar; [reflexivity | discriminate] ]).
  - rewrite traverse_VList. destruct t as [|s0 t'].
    + rewrite traverse_elems_off.
      * simpl bind. apply finish_on_target.
      * intros idx t E. apply (f_equal (@length seg)) in E.
        rewrite !length_app in E. simpl in E. lia.
    + assert (Hfin : forall l',
        finish p (modify_cb (p ++ s0 :: t') action) (VList l')
        = OK (VList l')) by (intros; apply finish_above_target).
      destruct s0 as [k|[|i [|j js]]].
      * rewrite traverse_elems_off; [simpl bind; apply Hfin|].
        intros idx t E. apply app_inv_head in E. discriminate.
      * rewrite traverse_elems_off; [simpl bind; apply Hfin|].
        intros idx t E. apply app_inv_head in E. discriminate.
      * assert (H : forall idx,
          traverse_elems p (modify_cb (p ++ SList [i] :: t') action) l idx
          = mapM_elems (fun idx x => if idx =? i
                                     then modify_at t' action x else OK x)
              l idx).
        { induction IH as [|x r Hx Hr IHr]; intros idx; [reflexivity|].
          simpl. rewrite IHr. f_equal.
          destruct (idx =? i) eqn:Ei.
          - apply Z.eqb_eq in Ei. subst idx.
            replace (p ++ SList [i] :: t') with ((p ++ [SList [i]]) ++ t')
              by (rewrite <- app_assoc; reflexivity).
            apply Hx.
          - apply traverse_off_target. intros t E.
            rewrite <- app_assoc in E. apply app_inv_head in E.
            injection E as E _. subst idx. rewrite Z.eqb_refl in Ei.
            discriminate. }
        rewrite H. simpl modify_at.
        destruct (mapM_elems _ l 0); simpl; [apply Hfin | reflexivity].
      * rewrite traverse_elems_off; [simpl bind; apply Hfin|].
        intros idx t E. apply app_inv_head in E. discriminate.
  - rewrite traverse_VDict. destruct t as [|s0 t'].
    + rewrite traverse_items_off.
      * simpl bind. apply finish_on_target.
      * intros k t E. apply (f_equal (@length seg)) in E.
        rewrite !length_app in E. simpl in E. lia.
    + assert (Hfin : forall d',
        finish p (modify_cb (p ++ s0 :: t') action) (VDict d')
        = OK (VDict d')) by (intros; apply finish_above_target).
      destruct s0 as [k|idxs].
      * assert (H :
          traverse_items p (modify_cb (p ++ SKey k :: t') action) d
          = mapM_items (fun k' x => if String.eqb k' k
                                    then modify_at t' action x else OK x) d).
        { induction IH as [|[k0 x] r Hx Hr IHr]; [reflexivity|].
          simpl in Hx |- *. rewrite IHr. f_equal.
          destruct (String.eqb k0 k) eqn:Ek.
          - apply String.eqb_eq in Ek. subst k0.
            replace (p ++ SKey k :: t') with ((p ++ [SKey k]) ++ t')
              by (rewrite <- app_assoc; reflexivity).
            apply Hx.
          - apply traverse_off_target. intros t E.
            rewrite <- app_assoc in E. apply app_inv_head in E.
            injection E as E _. subst k0. rewrite String.eqb_refl in Ek.
            discriminate. }
        rewrite H. simpl modify_at.
        destruct (mapM_items _ d); simpl; [apply Hfin | reflexivity].
      * rewrite traverse_items_off.
        -- simpl bind. transitivity (OK (VDict d)); [apply Hfin|].
           destruct idxs as [|i [|j js]]; reflexivity.
        -- intros k t E. apply app_inv_head in E. discriminate.
Qed.
End DescentMain.

(** X2.  [traverse_modify] with a list target is the descent along that
    address: the action is applied to the node at the address (to all of
    them if a key is repeated), after its subtree has been walked, and
    every other node is returned as it is; an exception of the action is
    the result. *)
Theorem traverse_modify_descent (v : value) (t : path)
  (action : value -> exc value) :
  traverse_modify v (TList t) action = modify_at t action v.
Proof.
  unfold traverse_modify. simpl to_path.
  exact (traverse_descent action v [] t).
Qed.

Lemma mapM_elems_same (f : Z -> value -> exc value) l : forall idx,
  (forall n, (n < length l)%nat ->
             f (idx + Z.of_nat n) (nth n l VNone) = OK (nth n l VNone)) ->
  mapM_elems f l idx = OK l.
Proof.
  induction l as [|x r IH]; intros idx H; [reflexivity|].
  simpl. generalize (H 0%nat ltac:(simpl; lia)). simpl.
  rewrite Z.add_0_r. intros ->. simpl.
  rewrite IH; [reflexivity|].
  intros n Hn. specialize (H (S n) ltac:(simpl; lia)). simpl nth in H.
  replace (idx + 1 + Z.of_nat n) with (idx + Z.of_nat (S n)) by lia.
  exact H.
Qed.

Lemma modify_at_no_node (action : value -> exc value) t : forall v,
  has_node t v = false -> modify_at t action v = OK v.
Proof.
  induction t as [|s rest IH]; intros v H; [discriminate|].
  destruct s as [k|[|i [|j js]]]; try reflexivity.
  - destruct v as [| | | | | |d]; try reflexivity.
    simpl in H |- *.
    assert (E : mapM_items
                  (fun k' x => if String.eqb k' k
                               then modify_at rest action x else OK x) d
                = OK d).
    { induction d as [|[k0 x] r IHd]; [reflexivity|].
      simpl in H |- *. apply orb_false_iff in H as [Hx Hr].
      rewrite (IHd Hr).
      destruct (String.eqb k0 k); simpl in Hx |- *;
        [rewrite (IH x Hx)|]; reflexivity. }
    rewrite E. reflexivity.
  - destruct v as [| | | | |l|]; try reflexivity.
    simpl in H |- *. rewrite mapM_elems_same; [reflexivity|].
    intros n Hn. simpl. destruct (Z.of_nat n =? i) eqn:Ei; [|reflexivity].
    apply Z.eqb_eq in Ei. subst i. apply IH.
    rewrite Nat2Z.id in H.
    replace (0 <=? Z.of_nat n) with true in H by (symmetry; apply Z.leb_le; lia).
    replace (Z.of_nat n <? Z.of_nat (length l)) with true in H
      by (symmetry; apply Z.ltb_lt; lia).
    exact H.
Qed.

(** X3.  When the tree has no node at the target address (a key that is
    missing, an index out of range, an address that leads into a scalar)
    [traverse_modify] returns the tree unchanged and raises nothing, the
    action is not called. *)
Theorem traverse_modify_no_node (v : value) (t : path)
  (action : value -> exc value) :
  has_node t v = false ->
  traverse_modify v (TList t) action = OK v.
Proof.
  intros H. unfold traverse_modify. simpl to_path.
  change (traverse v [] (modify_cb ([] ++ t) action) = OK v).
  rewrite traverse_descent. apply modify_at_no_node. exact H.
Qed.

Lemma traverse_modify_no_node_witness :
  traverse_modify (VDict [("items", VList [VInt 1; VInt 2])])
    (TList [SKey "items"; SList [2]]) (fun _ => Raise TypeError)
  = OK (VDict [("items", VList [VInt 1; VInt 2])]).
Proof.
  apply (traverse_modify_no_node
           (VDict [("items", VList [VInt 1; VInt 2])])
           [SKey "items"; SList [2]] (fun _ => Raise TypeError)).
  reflexivity.
Defined.

(** X4.  For a valid address string, [traverse_modify] is the descent
    along the segments of the address: the keys of its components, their
    indices, an empty key between adjacent indices and after a trailing
    index. *)
Theorem traverse_modify_valid_address (v : value) (a : list component)
  (action : value -> exc value) :
  valid_address a = true ->
  traverse_modify v (TStr (render a)) action
  = modify_at (address_segs a) action v.
Proof.
  intros Hv. unfold traverse_modify. rewrite (to_path_valid_address a Hv).
  exact (traverse_descent action v [] (address_segs a)).
Qed.

Lemma traverse_modify_valid_address_witness :
  traverse_modify
    (VDict [("spec", VDict [("replicas", VStr "2"); ("paused", VStr "no")])])
    (TStr "spec.replicas") set_type
  = OK (VDict [("spec", VDict [("replicas", VInt 2); ("paused", VStr "no")])]).
Proof.
  exact (eq_trans
    (traverse_modify_valid_address
       (VDict [("spec", VDict [("replicas", VStr "2");
                               ("paused", VStr "no")])])
       [{| ckey := "spec"; cidx := [] |}; {| ckey := "replicas"; cidx := [] |}]
       set_type eq_refl)
    eq_refl).
Defined.

(** ** What type coercion does to a whole value *)


Lemma set_type_settled v v' :
  is_scalar v = true -> set_type v = OK v' -> leaf_settled v' = true.
Proof.
  intros Hs. destruct v; try discriminate; simpl;
    try (intros H; inversion H; reflexivity).
  unfold leaf_settled, looks_typed.
  destruct (String.eqb (lower s) "false") eqn:Ef;
    [intros H; inversion H; reflexivity|].
  destruct (String.eqb (lower s) "true") eqn:Et;
    [intros H; inversion H; reflexivity|].
  destruct (isdigit s) eqn:Ed.
  - destruct (py_int s); simpl; intros H; inversion H; reflexivity.
  - intros H; inversion H; subst. rewrite Ef, Et, Ed. reflexivity.
Qed.

Lemma set_type_settled_fixed v :
  is_scalar v = true -> (set_type v = OK v <-> leaf_settled v = true).
Proof.
  intros Hs. split.
  - apply set_type_settled, Hs.
  - destruct v; try discriminate; try reflexivity.
    unfold leaf_settled, looks_typed. simpl. intros H.
    apply negb_true_iff in H. apply orb_false_iff in H as [H Hd].
    apply orb_false_iff in H as [Hf Ht]. rewrite Hf, Ht, Hd. reflexivity.
Qed.

Lemma coerce_elems_cons p x r idx l' :
  traverse_elems p coerce_cb (x :: r) idx = OK l' ->
  exists x' r', l' = x' :: r'
                /\ traverse x (p ++ [SList [idx]]) coerce_cb = OK x'
                /\ traverse_elems p coerce_cb r (idx + 1) = OK r'.
Proof.
  simpl. intros H. apply bind_OK in H as (x' & Hx & H).
  apply bind_OK in H as (r' & Hr & H). inversion H; subst. eauto.
Qed.

Lemma coerce_items_cons p k x r d' :
  traverse_items p coerce_cb ((k, x) :: r) = OK d' ->
  exists x' r', d' = (k, x') :: r'
                /\ traverse x (p ++ [SKey k]) coerce_cb = OK x'
                /\ traverse_items p coerce_cb r = OK r'.
Proof.
  simpl. intros H. apply bind_OK in H as (x' & Hx & H).
  apply bind_OK in H as (r' & Hr & H). inversion H; subst. eauto.
Qed.

Lemma coerce_VList p l v' :
  traverse (VList l) p coerce_cb = OK v' ->
  exists l', v' = VList l' /\ traverse_elems p coerce_cb l 0 = OK l'.
Proof.
  rewrite traverse_VList. intros H. apply bind_OK in H as (l' & Hl & H).
  simpl in H. inversion H; subst. eauto.
Qed.

Lemma coerce_VDict p d v' :
  traverse (VDict d) p coerce_cb = OK v' ->
  exists d', v' = VDict d' /\ traverse_items p coerce_cb d = OK d'.
Proof.
  rewrite traverse_VDict. intros H. apply bind_OK in H as (d' & Hd & H).
  simpl in H. inversion H; subst. eauto.
Qed.

Lemma coerce_result v : forall p v',
  traverse v p coerce_cb = OK v' ->
  all_leaves leaf_settled v' = true /\ skeleton v' = skeleton v.
Proof.
  induction v as [| b | z | f | s | l IH | d IH] using value_rect';
    intros p v' H.
  1-5: rewrite traverse_scalar, finish_coerce in H by reflexivity;
       assert (Hsc : is_scalar v' = true)
         by (eapply set_type_scalar; [|exact H]; reflexivity);
       assert (Hst : leaf_settled v' = true)
         by (eapply set_type_settled; [|exact H]; reflexivity);
       destruct v'; try discriminate; split; solve [exact Hst | reflexivity].
  - apply coerce_VList in H as (l' & -> & H).
    enough (G : all_leaves leaf_settled (VList l') = true
                /\ skeleton (VList l') = skeleton (VList l)) by exact G.
    revert l' H. generalize 0.
    induction IH as [|x r Hx Hr IHr]; intros idx l' H.
    + simpl in H. inversion H. split; reflexivity.
    + apply coerce_elems_cons in H as (x' & r' & -> & H1 & H2).
      destruct (Hx _ _ H1) as [Ha Hs].
      destruct (IHr _ _ H2) as [Hb Ht].
      simpl in Hb, Ht |- *. rewrite Ha, Hb, Hs. split; [reflexivity|].
      inversion Ht as [Ht']. rewrite Ht'. reflexivity.
  - apply coerce_VDict in H as (d' & -> & H).
    enough (G : all_leaves leaf_settled (VDict d') = true
                /\ skeleton (VDict d') = skeleton (VDict d)) by exact G.
    revert d' H.
    induction IH as [|[k x] r Hx Hr IHr]; intros d' H.
    + simpl in H. inversion H. split; reflexivity.
    + apply coerce_items_cons in H as (x' & r' & -> & H1 & H2).
      destruct (Hx _ _ H1) as [Ha Hs].
      destruct (IHr _ H2) as [Hb Ht].
      simpl in Hb, Ht |- *. rewrite Ha, Hb, Hs. split; [reflexivity|].
      inversion Ht as [Ht']. rewrite Ht'. reflexivity.
Qed.

(** X5.  A coerced manifest has the shape of the original (the same
    keys in the same order, lists of the same length), and none of its
    string leaves reads as a boolean or as a number any more. *)
Theorem fix_types_result (v v' : value) :
  fix_types v = OK v' ->
  skeleton v' = skeleton v /\ all_leaves leaf_settled v' = true.
Proof.
  intros H. unfold fix_types, traverse_modify_all in H. fold coerce_cb in H.
  destruct (coerce_result v [] v' H). auto.
Qed.

Lemma fix_types_result_witness :
  let v := VDict [("replicas", VStr "3");
                  ("labels", VList [VStr "TRUE"; VStr "v1"; VNone])] in
  let v' := VDict [("replicas", VInt 3);
                   ("labels", VList [VBool true; VStr "v1"; VNone])] in
  skeleton v' = skeleton v /\ all_leaves leaf_settled v' = true.
Proof.
  intros v v'. apply (fix_types_result v v'). reflexivity.
Defined.



Lemma coerce_settled v :
  all_leaves leaf_settled v = true ->
  forall p, traverse v p coerce_cb = OK v.
Proof.
  induction v as [| b | z | f | s | l IH | d IH] using value_rect';
    intros Hv p.
  1-5: rewrite traverse_scalar, finish_coerce by reflexivity;
       apply set_type_settled_fixed; [reflexivity | exact Hv].
  - rewrite traverse_VList.
    assert (H : forall idx, traverse_elems p coerce_cb l idx = OK l).
    { induction IH as [|x r Hx Hr IHr]; intros idx; [reflexivity|].
      change (all_leaves leaf_settled x
              && all_leaves leaf_settled (VList r) = true) in Hv.
      apply andb_true_iff in Hv as [H1 H2].
      simpl. rewrite (Hx H1). simpl. rewrite (IHr H2). reflexivity. }
    rewrite H. reflexivity.
  - rewrite traverse_VDict.
    assert (H : traverse_items p coerce_cb d = OK d).
    { induction IH as [|[k x] r Hx Hr IHr]; [reflexivity|].
      change (all_leaves leaf_settled x
              && all_leaves leaf_settled (VDict r) = true) in Hv.
      apply andb_true_iff in Hv as [H1 H2].
      simpl in Hx |- *. rewrite (Hx H1). simpl. rewrite (IHr H2).
      reflexivity. }
    rewrite H. reflexivity.
Qed.

(** X7.  The manifests that type coercion returns unchanged are exactly
    those without a string leaf that reads as a boolean or as a number;
    in particular a manifest without strings is never changed. *)
Theorem fix_types_fixed_iff (v : value) :
  fix_types v = OK v <-> all_leaves leaf_settled v = true.
Proof.
  unfold fix_types, traverse_modify_all. fold coerce_cb. split.
  - intros H. exact (proj1 (coerce_result v [] v H)).
  - intros H. apply coerce_settled. exact H.
Qed.

(** ** generate_name: repeated naming, untouched fields, errors *)

Lemma dict_set_keys k x d :
  dict_has k d = true -> map fst (dict_set k x d) = map fst d.
Proof.
  unfold dict_has. induction d as [|[k0 v0] r IH]; simpl; [discriminate|].
  destruct (String.eqb k k0) eqn:E; simpl; [reflexivity|].
  intros H. rewrite (IH H). reflexivity.
Qed.

Lemma dict_set_keys_new k x d :
  dict_has k d = false -> map fst (dict_set k x d) = map fst d ++ [k].
Proof.
  unfold dict_has. induction d as [|[k0 v0] r IH]; simpl; [reflexivity|].
  destruct (String.eqb k k0) eqn:E; simpl; [discriminate|].
  intros H. rewrite (IH H). reflexivity.
Qed.

Lemma dict_has_set k k' x d :
  dict_has k (dict_set k' x d) = String.eqb k k' || dict_has k d.
Proof.
  unfold dict_has. rewrite dict_get_set.
  destruct (String.eqb k k'); reflexivity.
Qed.

(** The outcomes of [generate_name] when it returns. *)
Lemma generate_name_OK ev pid m' :
  generate_name ev pid = OK m' ->
  exists d, Manifest ev = VDict d
    /\ ((dict_has "metadata" d = false /\ m' = VDict d)
        \/ exists m, dict_get "metadata" d = Some (VDict m)
             /\ ((dict_has "name" m || dict_has "generateName" m = true
                  /\ m' = VDict d)
                 \/ (dict_has "name" m || dict_has "generateName" m = false
                     /\ exists field x,
                          (field = "name" \/ field = "generateName")
                          /\ m' = with_metadata_field d m field x))).
Proof.
  unfold generate_name. intros H.
  apply bind_OK in H as (stack_name & _ & H).
  apply bind_OK in H as (ks & Hks & H).
  destruct (Manifest ev) as [| | | | | |d]; try discriminate.
  simpl in Hks. injection Hks as <-. exists d. split; [reflexivity|].
  destruct (dict_has "metadata" d) eqn:Hmd.
  - right. apply bind_OK in H as (md & Hget & H).
    apply bind_OK in H as (mks & Hmks & H).
    destruct md as [| | | | | |m]; try discriminate.
    simpl in Hmks. injection Hmks as <-. exists m. split.
    { simpl in Hget. destruct (dict_get "metadata" d); [|discriminate].
      congruence. }
    destruct (dict_has "name" m) eqn:Hn; simpl in H |- *.
    { left. split; [reflexivity | congruence]. }
    destruct (dict_has "generateName" m) eqn:Hg; simpl in H |- *.
    { left. split; [reflexivity | congruence]. }
    right. split; [reflexivity|].
    destruct (truthy pid).
    + apply bind_OK in H as (name & _ & H). injection H as <-.
      exists "name", (VStr name). split; [left|]; reflexivity.
    + injection H as <-. eexists "generateName", _.
      split; [right|]; reflexivity.
  - left. split; [reflexivity | congruence].
Qed.

(** X8.  Naming is stable: when [generate_name] returns a manifest,
    naming that manifest again, with any physical id, returns it
    unchanged. *)
Theorem generate_name_stable (ev : event) (pid pid' m' : value) :
  generate_name ev pid = OK m' ->
  generate_name (with_manifest ev m') pid' = OK m'.
Proof.
  intros H. assert (Hst : exists x, match split_on "/" (StackId ev) with
                                    | _ :: x :: _ => OK x
                                    | _ => Raise IndexError
                                    end = OK x).
  { unfold generate_name in H. apply bind_OK in H as (x & Hx & _). eauto. }
  destruct Hst as [stack_name Hst].
  apply generate_name_OK in H as (d & Hd & H).
  unfold generate_name. cbn [with_manifest Manifest StackId].
  rewrite Hst. cbn [bind].
  destruct H as [[Hno ->] | (m & Hm & [[Hhas ->] | (Hnot & field & x & Hf & ->)])].
  - simpl. rewrite Hno. reflexivity.
  - simpl. rewrite (dict_has_some _ _ _ Hm), Hm. simpl.
    apply orb_true_iff in Hhas as [-> | ->];
      [reflexivity | rewrite andb_false_r; reflexivity].
  - unfold with_metadata_field. cbn [keys bind getitem].
    rewrite dict_has_set, String.eqb_refl. cbn [orb].
    rewrite dict_get_set, String.eqb_refl. cbn [keys bind].
    rewrite !dict_has_set.
    apply orb_false_iff in Hnot as [Hn Hg]. rewrite Hn, Hg.
    destruct Hf as [-> | ->]; reflexivity.
Qed.

Lemma generate_name_stable_witness :
  generate_name
    (with_manifest
       (example_event "Create" (VDict [("metadata", VDict [])]) "s3://b/k" None)
       (VDict [("metadata", VDict [("generateName", VStr "cfn-mystack-")])]))
    (VStr "/api/v1/namespaces/ns/pods/foo-123")
  = OK (VDict [("metadata", VDict [("generateName", VStr "cfn-mystack-")])]).
Proof.
  apply (generate_name_stable
           (example_event "Create" (VDict [("metadata", VDict [])])
              "s3://b/k" None) VNone).
  reflexivity.
Defined.

(** X9.  [generate_name] touches nothing but the one field it adds: the
    keys of the manifest and their order stay, every top-level field
    other than metadata keeps its value, and every metadata field other
    than name and generateName keeps its value. *)
Theorem generate_name_frame (ev : event) (pid : value) (d d' : dict) :
  Manifest ev = VDict d ->
  generate_name ev pid = OK (VDict d') ->
  map fst d' = map fst d
  /\ (forall k, k <> "metadata" -> dict_get k d' = dict_get k d)
  /\ (forall m m' f,
        dict_get "metadata" d = Some (VDict m) ->
        dict_get "metadata" d' = Some (VDict m') ->
        f <> "name" -> f <> "generateName" ->
        dict_get f m' = dict_get f m).
Proof.
  intros Hd H. apply generate_name_OK in H as (d0 & Hd0 & H).
  rewrite Hd in Hd0. injection Hd0 as <-.
  destruct H as [[_ E] | (m0 & Hm0 & [[_ E] | (_ & field & x & Hf & E)])].
  1-2: injection E as ->; repeat split; auto;
       intros m m' f H1 H2 _ _; congruence.
  unfold with_metadata_field in E. injection E as ->.
  split; [apply dict_set_keys, (dict_has_some _ _ _ Hm0)|]. split.
  - intros k Hk. rewrite dict_get_set.
    destruct (String.eqb k "metadata") eqn:E; [|reflexivity].
    apply String.eqb_eq in E. contradiction.
  - intros m m' f H1 H2 Hn Hg. rewrite Hm0 in H1. injection H1 as <-.
    rewrite dict_get_set, String.eqb_refl in H2. injection H2 as <-.
    rewrite dict_get_set. destruct (String.eqb f field) eqn:E; [|reflexivity].
    apply String.eqb_eq in E. subst f. destruct Hf; contradiction.
Qed.

Lemma generate_name_frame_witness :
  let d := [("kind", VStr "Pod");
            ("metadata", VDict [("labels", VDict [("app", VStr "x")])]);
            ("spec", VDict [])] in
  let d' := [("kind", VStr "Pod");
             ("metadata", VDict [("labels", VDict [("app", VStr "x")]);
                                 ("generateName", VStr "cfn-mystack-")]);
             ("spec", VDict [])] in
  map fst d' = map fst d
  /\ (forall k, k <> "metadata" -> dict_get k d' = dict_get k d)
  /\ (forall m m' f,
        dict_get "metadata" d = Some (VDict m) ->
        dict_get "metadata" d' = Some (VDict m') ->
        f <> "name" -> f <> "generateName" ->
        dict_get f m' = dict_get f m).
Proof.
  intros d d'.
  apply (generate_name_frame
           (example_event "Create" (VDict d) "s3://b/k" None) VNone d d');
    reflexivity.
Defined.

Lemma split_on_no_sep_single sep s :
  str_forall (fun c => negb (Ascii.eqb c sep)) s = true ->
  split_on sep s = [s].
Proof.
  induction s as [|c r IH]; simpl; [reflexivity|]. intros H.
  apply andb_true_iff in H as [Hc Hr].
  apply negb_true_iff in Hc. rewrite Hc, (IH Hr). reflexivity.
Qed.

(** X10.  A stack id without '/' makes [generate_name] raise IndexError
    whatever the manifest and the physical id are, also for a manifest
    that already has a name and would be returned as it is. *)
Theorem generate_name_stack_id_error (ev : event) (pid : value) :
  str_forall no_slash (StackId ev) = true ->
  generate_name ev pid = Raise IndexError.
Proof.
  intros H. unfold generate_name.
  rewrite (split_on_no_sep_single "/" (StackId ev) H). reflexivity.
Qed.

Lemma generate_name_stack_id_error_witness :
  generate_name
    {| RequestType := "Update";
       Manifest := VDict [("metadata", VDict [("name", VStr "x")])];
       KubeConfigPath := "s3://b/k";
       KubeConfigKmsContext := VNone;
       PhysicalResourceId := None;
       StackId := "MyStack";
       ResponseURL := "u"; RequestId := "r"; LogicalResourceId := "l" |}
    VNone
  = Raise IndexError.
Proof.
  apply generate_name_stack_id_error. reflexivity.
Defined.

(** ** build_output: when it returns, and the keys of what it returns *)

(** X11.  [build_output] returns a value exactly for a tool output that is
    a map whose metadata entry is a map; for every other output it
    raises. *)
Theorem build_output_succeeds_iff (kube_response : value) :
  (exists outp, build_output kube_response = OK outp)
  <-> exists d m, kube_response = VDict d
                  /\ dict_get "metadata" d = Some (VDict m).
Proof.
  split.
  - intros [outp H]. unfold build_output, output_keys in H.
    apply bind_OK in H as (o & H & _). simpl in H.
    apply bind_OK in H as (md & Hmd & H).
    apply bind_OK in H as (mks & Hmks & _).
    destruct kube_response as [| | | | | |d]; try discriminate.
    destruct md as [| | | | | |m]; try discriminate.
    exists d, m. split; [reflexivity|].
    simpl in Hmd. destruct (dict_get "metadata" d); [congruence|discriminate].
  - intros (d & m & -> & Hm).
    destruct (build_output_copy d m Hm) as [H _]. eauto.
Qed.

Lemma fold_copy_keys m ks : forall outp,
  NoDup ks ->
  (forall k, In k ks -> dict_has k outp = false) ->
  map fst (fold_left (copy_key m) ks outp)
  = map fst outp ++ filter (fun k => dict_has k m) ks.
Proof.
  induction ks as [|k ks IH]; intros outp Hnd Habs; simpl.
  - rewrite app_nil_r. reflexivity.
  - inversion Hnd as [|? ? Hnotin Hnd']; subst.
    destruct (dict_get k m) as [x|] eqn:Ek.
    + rewrite (dict_has_some _ _ _ Ek).
      replace (copy_key m outp k) with (dict_set k x outp)
        by (unfold copy_key; rewrite Ek; reflexivity).
      rewrite IH.
      * rewrite dict_set_keys_new by (apply Habs; left; reflexivity).
        rewrite <- app_assoc. reflexivity.
      * exact Hnd'.
      * intros k' Hin. rewrite dict_has_set, (Habs k' (or_intror Hin)).
        destruct (String.eqb k' k) eqn:E; [|reflexivity].
        apply String.eqb_eq in E. subst k'. contradiction.
    + rewrite (dict_has_none _ _ Ek).
      replace (copy_key m outp k) with outp
        by (unfold copy_key; rewrite Ek; reflexivity).
      apply IH; [exact Hnd'|]. intros k' Hin. apply Habs. right. exact Hin.
Qed.

(** X12.  The map that [build_output] returns has as its keys those of
    uid, selfLink, resourceVersion, namespace, name that the metadata has,
    each once and in this order; so it never has more than five
    entries. *)
Theorem build_output_keys (d m : dict) (outp : dict) :
  dict_get "metadata" d = Some (VDict m) ->
  build_output (VDict d) = OK (VDict outp) ->
  map fst outp = filter (fun k => dict_has k m) output_keys
  /\ (length outp <= 5)%nat.
Proof.
  intros Hm H. destruct (build_output_copy d m Hm) as [E _].
  assert (Ho : outp = fold_left (copy_key m) output_keys []) by congruence.
  assert (K : map fst outp = filter (fun k => dict_has k m) output_keys).
  { rewrite Ho, fold_copy_keys; [reflexivity | | intros k _; reflexivity].
    unfold output_keys.
    repeat (constructor; [simpl; intuition discriminate|]). constructor. }
  split; [exact K|].
  rewrite <- (length_map fst outp), K.
  apply (Nat.le_trans _ (length output_keys)); [apply filter_length_le|].
  apply Nat.le_refl.
Qed.

Lemma build_output_keys_witness :
  map fst [("uid", VStr "u1"); ("name", VStr "x")]
  = filter (fun k => dict_has k [("name", VStr "x"); ("extra", VNone);
                                 ("uid", VStr "u1")]) output_keys
  /\ (length [("uid", VStr "u1"); ("name", VStr "x")] <= 5)%nat.
Proof.
  apply (build_output_keys
           [("metadata", VDict [("name", VStr "x"); ("extra", VNone);
                                ("uid", VStr "u1")])]
           [("name", VStr "x"); ("extra", VNone); ("uid", VStr "u1")]);
    reflexivity.
Defined.

(** ** get_config_details: which paths it takes, and what it makes of them *)

Lemma join_split_on sep s :
  join (String sep EmptyString) (split_on sep s) = s.
Proof.
  induction s as [|c r IH]; [reflexivity|]. simpl.
  generalize (split_on_nonempty sep r). revert IH.
  destruct (split_on sep r) as [|h t]; [congruence|]. intros IH _.
  destruct (Ascii.eqb c sep) eqn:E.
  - apply Ascii.eqb_eq in E. subst c.
    change (join (String sep EmptyString) (EmptyString :: h :: t))
      with (String sep (join (String sep EmptyString) (h :: t))).
    rewrite IH. reflexivity.
  - destruct t as [|h2 t].
    + simpl in IH |- *. rewrite IH. reflexivity.
    + change (join (String sep EmptyString) (String c h :: h2 :: t))
        with (String c (h ++ String sep (join (String sep EmptyString) (h2 :: t))))%string.
      change (join (String sep EmptyString) (h :: h2 :: t))
        with (h ++ String sep (join (String sep EmptyString) (h2 :: t)))%string in IH.
      rewrite IH. reflexivity.
Qed.

Lemma split_on_parts_no_sep sep s :
  Forall (fun x => str_forall (fun c => negb (Ascii.eqb c sep)) x = true)
         (split_on sep s).
Proof.
  induction s as [|c r IH]; simpl; [repeat constructor|].
  destruct (Ascii.eqb c sep) eqn:E; [constructor; [reflexivity | exact IH]|].
  destruct (split_on sep r) as [|h t]; [repeat constructor; simpl; rewrite E;
                                        reflexivity|].
  inversion IH; subst. constructor; [|assumption].
  simpl. rewrite E. assumption.
Qed.

Lemma split_on_before_sep sep k r :
  str_forall (fun c => negb (Ascii.eqb c sep)) k = true ->
  split_on sep (k ++ String sep r) = k :: split_on sep r.
Proof.
  induction k as [|c k IH]; simpl; intros H.
  - rewrite Ascii.eqb_refl. reflexivity.
  - apply andb_true_iff in H as [Hc Hk]. apply negb_true_iff in Hc.
    rewrite Hc, (IH Hk). reflexivity.
Qed.

(** X13.  A path that [get_config_details] takes is the S3 URI of what it
    returns: it is "s3://", the bucket, "/", the key; the bucket has no
    '/'; and the KMS context is the context of the request under the key
    QSContext. *)
Theorem get_config_details_sound (ev : event) (bucket key : string)
  (kms_context : value) :
  get_config_details ev = OK (bucket, key, kms_context) ->
  KubeConfigPath ev = ("s3://" ++ bucket ++ "/" ++ key)%string
  /\ str_forall no_slash bucket = true
  /\ kms_context = VDict [("QSContext", KubeConfigKmsContext ev)].
Proof.
  unfold get_config_details. intros H.
  pose proof (join_split_on "/" (KubeConfigPath ev)) as Hj.
  pose proof (split_on_parts_no_sep "/" (KubeConfigPath ev)) as Hp.
  destruct (split_on "/" (KubeConfigPath ev)) as [|a [|b [|c [|e rest]]]];
    try (simpl in H; discriminate).
  cbn [length firstn Nat.ltb Nat.leb orb nth skipn negb] in H.
  destruct (String.eqb a "s3:") eqn:Ea; [|discriminate].
  destruct (String.eqb b EmptyString) eqn:Eb; [|discriminate].
  cbn [andb negb] in H. injection H as <- <- <-.
  apply String.eqb_eq in Ea, Eb. subst a b.
  split; [|split; [|reflexivity]].
  - rewrite <- Hj. reflexivity.
  - inversion Hp as [|? ? _ Hp1]; subst. inversion Hp1 as [|? ? _ Hp2]; subst.
    inversion Hp2; subst. assumption.
Qed.

Lemma get_config_details_sound_witness :
  KubeConfigPath
    (example_event "Create" VNone "s3://my-bucket/path/to/config" None)
  = ("s3://" ++ "my-bucket" ++ "/" ++ "path/to/config")%string
  /\ str_forall no_slash "my-bucket" = true
  /\ VDict [("QSContext", VStr "ctx")]
     = VDict [("QSContext",
               KubeConfigKmsContext
                 (example_event "Create" VNone
                    "s3://my-bucket/path/to/config" None))].
Proof.
  apply (get_config_details_sound
           (example_event "Create" VNone "s3://my-bucket/path/to/config" None)
           "my-bucket" "path/to/config" (VDict [("QSContext", VStr "ctx")])).
  reflexivity.
Defined.

(** X14.  Every S3 URI with a bucket without '/' and a key, empty or with
    further '/' in it, is taken, and gives back that bucket and that
    key. *)
Theorem get_config_details_complete (ev : event) (bucket key : string) :
  str_forall no_slash bucket = true ->
  get_config_details
    (with_config_path ev ("s3://" ++ bucket ++ "/" ++ key)%string)
  = OK (bucket, key, VDict [("QSContext", KubeConfigKmsContext ev)]).
Proof.
  intros Hb. unfold get_config_details.
  cbn [with_config_path KubeConfigPath KubeConfigKmsContext].
  change ("s3://" ++ bucket ++ "/" ++ key)%string
    with ("s3:" ++ String "/" (EmptyString ++ String "/"
            (bucket ++ String "/" key)))%string.
  rewrite (split_on_before_sep "/" "s3:") by reflexivity.
  rewrite (split_on_before_sep "/" EmptyString) by reflexivity.
  rewrite (split_on_before_sep "/" bucket) by exact Hb.
  generalize (split_on_nonempty "/" key) (join_split_on "/" key).
  destruct (split_on "/" key) as [|h t]; [congruence|]. intros _ Hj.
  cbn [length firstn Nat.ltb Nat.leb orb negb String.eqb Ascii.eqb Bool.eqb
       andb nth skipn].
  rewrite Hj. reflexivity.
Qed.

Lemma get_config_details_complete_witness :
  get_config_details
    (with_config_path (example_event "Create" VNone EmptyString None)
       ("s3://" ++ "bucket" ++ "/" ++ "a/b/config")%string)
  = OK ("bucket", "a/b/config", VDict [("QSContext", VStr "ctx")]).
Proof.
  apply (get_config_details_complete
           (example_event "Create" VNone EmptyString None) "bucket" "a/b/config").
  reflexivity.
Defined.

(** X15.  An S3 URI that names a bucket and nothing after it is refused,
    although it starts with "s3://" and so passes the first check of the
    handler. *)
Theorem get_config_details_bucket_only (ev : event) (bucket : string) :
  str_forall no_slash bucket = true ->
  startswith ("s3://" ++ bucket)%string "s3://" = true
  /\ get_config_details (with_config_path ev ("s3://" ++ bucket)%string)
     = Raise invalid_config_path.
Proof.
  intros Hb. split; [unfold startswith; simpl; destruct bucket; reflexivity|].
  unfold get_config_details. cbn [with_config_path KubeConfigPath].
  change ("s3://" ++ bucket)%string
    with ("s3:" ++ String "/" (EmptyString ++ String "/" bucket))%string.
  rewrite (split_on_before_sep "/" "s3:") by reflexivity.
  rewrite (split_on_before_sep "/" EmptyString) by reflexivity.
  rewrite (split_on_no_sep_single "/" bucket Hb). reflexivity.
Qed.

Lemma get_config_details_bucket_only_witness :
  startswith ("s3://" ++ "my-bucket")%string "s3://" = true
  /\ get_config_details
       (with_config_path (example_event "Create" VNone EmptyString None)
          ("s3://" ++ "my-bucket")%string)
     = Raise invalid_config_path.
Proof.
  apply (get_config_details_bucket_only
           (example_event "Create" VNone EmptyString None) "my-bucket").
  reflexivity.
Defined.

(** ** The handler: what it does to the outside *)

Ltac wp_split :=
  wp_run;
  lazymatch goal with
  | |- match ?x with _ => _ end => destruct x eqn:?
  | |- if ?b then _ else _ => destruct b eqn:?
  | |- wp (match ?x with _ => _ end) _ _ => destruct x eqn:?
  | |- wp (if ?b then _ else _) _ _ => destruct b eqn:?
  end.

Ltac request_type_clash :=
  exfalso;
  repeat match goal with
         | H : String.eqb (RequestType _) _ = true |- _ =>
             apply String.eqb_eq in H
         end;
  congruence.

Ltac trace_side :=
  first
    [ eassumption
    | unfold named_coerced, request_id_value;
      match goal with
      | H : PhysicalResourceId _ = _ |- _ => rewrite H
      end; eassumption
    | unfold request_command;
      repeat match goal with
             | H : String.eqb _ _ = _ |- _ => rewrite H
             end; reflexivity ].

Lemma body_effects_trace (ev : event) (w : world) :
  body_trace ev w (body_effects ev w).
Proof.
  unfold body_effects.
  change (wp (try_body ev w) initial_locals
            (fun _ s => body_trace ev w (effects s))).
  unfold try_body. repeat wp_split. all: wp_run.
  all: cbn [effects initial_locals app negb] in *.
  all: repeat match goal with u : unit |- _ => destruct u end.
  all: try solve [request_type_clash].
  all: try solve [constructor].
  all: try solve [eapply trace_fetch; trace_side].
  all: try solve [eapply trace_write; trace_side].
  all: try solve [eapply trace_command; trace_side].
Qed.

Lemma final_report_report_of ev ctx w :
  final_report ev ctx w = report_of ev ctx (try_body ev w initial_locals).
Proof.
  unfold final_report, report_of.
  destruct (try_body ev w initial_locals) as [[u|e] s]; reflexivity.
Qed.

Lemma wp_eq {A : Type} (m : M A) s X :
  wp m s (fun r s' => (r, s') = X) -> m s = X.
Proof. unfold wp. destruct (m s). exact (fun H => H). Qed.

Lemma wp_self {A : Type} (m : M A) s :
  wp m s (fun r s' => (r, s') = m s).
Proof. unfold wp. destruct (m s). reflexivity. Qed.

(** After a successful preparation the body is its dispatch. *)
Lemma try_body_dispatch ev w bucket key kms_context manifest :
  prepared ev w bucket key kms_context manifest ->
  try_body ev w initial_locals
  = dispatch ev w (prepared_locals ev bucket key kms_context manifest).
Proof.
  intros (Hpath & Hs3 & Hcfg & Hkc & Hman).
  apply wp_eq.
  unfold try_body, prepared_locals, request_id_value, initial_locals. wp_run.
  destruct (environ_PATH w); [|congruence]. wp_run.
  rewrite Hs3. wp_run. rewrite Hcfg. wp_run. rewrite Hkc. wp_run.
  destruct (PhysicalResourceId ev) as [p|]; wp_run; rewrite Hman;
    cbv beta iota; wp_step; wp_step; cbv beta iota;
    apply (wp_self (dispatch ev w)).
Qed.

(** X16.  Whatever the request and the outside do, the effects of the
    body are one of four: nothing; the kubeconfig fetch; the fetch and the
    write of the named and coerced manifest; or these two and a single
    command, which is the one of the request type.  So the handler runs at
    most one command, and none before the kubeconfig was fetched and the
    manifest written. *)
Theorem handler_effects (ev : event) (w : world) :
  body_trace ev w (body_effects ev w)
  /\ (length (commands (body_effects ev w)) <= 1)%nat.
Proof.
  pose proof (body_effects_trace ev w) as H. split; [exact H|].
  destruct H; simpl; lia.
Qed.

(** X17.  A manifest that the handler writes to the manifest file is a
    fixed point of type coercion: coercing it again returns it, and none
    of its string leaves reads as a boolean or as a number. *)
Theorem written_manifest_coerced (ev : event) (w : world)
  (manifest : value) (file : string) :
  In (EWriteManifest manifest file) (body_effects ev w) ->
  file = manifest_file
  /\ fix_types manifest = OK manifest
  /\ all_leaves leaf_settled manifest = true.
Proof.
  intros Hin.
  assert (H : file = manifest_file /\ named_coerced ev manifest).
  { destruct (body_effects_trace ev w) as [|b k c Hc|b k c m Hc Hk Hm
                                            |b k c m cmd Hc Hk Hm Hr];
      simpl in Hin; intuition (try discriminate);
      match goal with H : _ = EWriteManifest _ _ |- _ => injection H as <- <- end;
      auto. }
  destruct H as [-> Hm]. split; [reflexivity|].
  unfold named_coerced in Hm. apply bind_OK in Hm as (m0 & _ & Hm).
  unfold fix_types, traverse_modify_all in Hm |- *. fold coerce_cb in Hm |- *.
  split.
  - exact (coerce_fixed m0 [] manifest Hm []).
  - exact (proj1 (coerce_result m0 [] manifest Hm)).
Qed.

Lemma written_manifest_coerced_witness :
  let m := VDict [("metadata", VDict [("generateName", VStr "cfn-mystack-")]);
                  ("spec", VDict [("replicas", VInt 3)])] in
  manifest_file = manifest_file
  /\ fix_types m = OK m
  /\ all_leaves leaf_settled m = true.
Proof.
  intros m.
  apply (written_manifest_coerced
           (example_event "Create"
              (VDict [("metadata", VDict []);
                      ("spec", VDict [("replicas", VStr "3")])])
              "s3://b/k" None)
           example_world m manifest_file).
  simpl. right. left. reflexivity.
Defined.

Lemma send_request_id ev ctx status rd reason :
  BodyPhysicalResourceId (send ev ctx status rd (request_id_value ev) reason)
  = carried_id ev ctx.
Proof.
  unfold send, request_id_value, carried_id. cbn [BodyPhysicalResourceId].
  destruct (PhysicalResourceId ev) as [p|];
    [destruct (truthy (VStr p))|]; reflexivity.
Qed.

(** X18.  A request whose type is none of Create, Update and Delete is
    not refused: once the preparation has succeeded the handler runs no
    command and reports SUCCESS, without payload and with the id the
    request carried. *)
Theorem unknown_request_type (ev : event) (ctx : context) (w : world)
  (bucket key : string) (kms_context manifest : value) :
  request_command (RequestType ev) = None ->
  prepared ev w bucket key kms_context manifest ->
  body_effects ev w = [ECreateKubeconfig bucket key kms_context;
                       EWriteManifest manifest manifest_file]
  /\ Status (final_report ev ctx w) = SUCCESS
  /\ Data (final_report ev ctx w) = None
  /\ BodyPhysicalResourceId (final_report ev ctx w) = carried_id ev ctx.
Proof.
  intros Hrt Hprep. unfold request_command in Hrt.
  destruct (String.eqb (RequestType ev) "Create") eqn:E1; [discriminate|].
  destruct (String.eqb (RequestType ev) "Update") eqn:E2; [discriminate|].
  destruct (String.eqb (RequestType ev) "Delete") eqn:E3; [discriminate|].
  rewrite final_report_report_of. unfold body_effects.
  rewrite (try_body_dispatch ev w _ _ _ _ Hprep).
  unfold dispatch. rewrite E1, E2, E3.
  cbn [when bindM ret report_of snd fst prepared_locals effects
       response_data physical_resource_id].
  repeat split. apply send_request_id.
Qed.

Lemma unknown_request_type_witness :
  let ev := example_event "Replace" (VDict [("metadata", VDict [])])
              "s3://b/k" None in
  body_effects ev example_world
  = [ECreateKubeconfig "b" "k" (VDict [("QSContext", VStr "ctx")]);
     EWriteManifest
       (VDict [("metadata", VDict [("generateName", VStr "cfn-mystack-")])])
       manifest_file]
  /\ Status (final_report ev example_context example_world) = SUCCESS
  /\ Data (final_report ev example_context example_world) = None
  /\ BodyPhysicalResourceId (final_report ev example_context example_world)
     = carried_id ev example_context.
Proof.
  intros ev.
  apply (unknown_request_type ev example_context example_world "b" "k"
           (VDict [("QSContext", VStr "ctx")])
           (VDict [("metadata",
                    VDict [("generateName", VStr "cfn-mystack-")])])).
  - reflexivity.
  - unfold prepared. repeat split. discriminate.
Defined.

(** X19.  Validation comes before every effect: when PATH is not set, or
    the kubeconfig path does not start with "s3://", or
    [get_config_details] refuses it, the handler fetches nothing, writes
    nothing and runs nothing, and reports FAILED without payload and with
    the id the request carried. *)
Theorem invalid_request_no_effect (ev : event) (ctx : context) (w : world) :
  environ_PATH w = None
  \/ startswith (KubeConfigPath ev) "s3://" = false
  \/ (exists e, get_config_details ev = Raise e) ->
  body_effects ev w = []
  /\ Status (final_report ev ctx w) = FAILED
  /\ Data (final_report ev ctx w) = None
  /\ BodyPhysicalResourceId (final_report ev ctx w) = carried_id ev ctx.
Proof.
  intros H.
  apply (final_report_wp ev ctx w
    (fun body effs =>
       effs = [] /\ Status body = FAILED /\ Data body = None
       /\ BodyPhysicalResourceId body = carried_id ev ctx)).
  assert (Hid : forall status reason,
    BodyPhysicalResourceId (send ev ctx status (VDict []) VNone reason)
    = carried_id ev ctx) by reflexivity.
  unfold try_body, initial_locals. wp_run.
  destruct (environ_PATH w) as [path|] eqn:Hpath.
  2: { repeat split. }
  wp_run.
  destruct (startswith (KubeConfigPath ev) "s3://") eqn:Hs3.
  2: { repeat split. }
  wp_run.
  destruct (get_config_details ev) as [cfg|e] eqn:Hcfg.
  2: { repeat split. }
  exfalso. destruct H as [H | [H | [e H]]]; discriminate.
Qed.

Lemma invalid_request_no_effect_witness :
  let ev := example_event "Create" (VDict [("metadata", VDict [])])
              "https://bucket/key" None in
  body_effects ev example_world = []
  /\ Status (final_report ev example_context example_world) = FAILED
  /\ Data (final_report ev example_context example_world) = None
  /\ BodyPhysicalResourceId (final_report ev example_context example_world)
     = carried_id ev example_context.
Proof.
  intros ev.
  apply (invalid_request_no_effect ev example_context example_world).
  right. left. reflexivity.
Defined.

(** The dispatch of a Create whose command printed a parsable object. *)
Lemma dispatch_create ev w s outp kube_response :
  RequestType ev = "Create" ->
  run_command w create_command = OK outp ->
  json_loads w outp = OK kube_response ->
  dispatch ev w s
  = match build_output kube_response with
    | OK rd =>
        match getitem rd "selfLink" with
        | OK self_link =>
            (OK tt, {| response_data := rd;
                       physical_resource_id := self_link;
                       effects := effects s ++ [ERunCommand create_command] |})
        | Raise e =>
            (Raise e, {| response_data := rd;
                         physical_resource_id := physical_resource_id s;
                         effects := effects s ++ [ERunCommand create_command] |})
        end
    | Raise e =>
        (Raise e, {| response_data := response_data s;
                     physical_resource_id := physical_resource_id s;
                     effects := effects s ++ [ERunCommand create_command] |})
    end.
Proof.
  intros Hrt Hrun Hjs. apply wp_eq. unfold dispatch. rewrite Hrt.
  cbn [String.eqb Ascii.eqb Bool.eqb]. wp_run.
  change ("kubectl create --save-config -o json -f " ++ manifest_file)%string
    with create_command.
  rewrite Hrun. wp_run. rewrite Hjs. wp_run.
  destruct (build_output kube_response) as [rd|e]; [|reflexivity]. wp_run.
  destruct (getitem rd "selfLink") as [sl|e]; [|reflexivity]. wp_run.
  reflexivity.
Qed.

(** X20.  A Create whose preparation succeeds and whose command prints an
    object with a selfLink in its metadata is reported SUCCESS; the
    payload is what [build_output] extracts, the selfLink included, and
    the physical id is the selfLink. *)
Theorem create_success (ev : event) (ctx : context) (w : world)
  (bucket key outp : string) (kms_context manifest self_link : value)
  (d m : dict) :
  RequestType ev = "Create" ->
  prepared ev w bucket key kms_context manifest ->
  run_command w create_command = OK outp ->
  json_loads w outp = OK (VDict d) ->
  dict_get "metadata" d = Some (VDict m) ->
  dict_get "selfLink" m = Some self_link ->
  truthy self_link = true ->
  body_effects ev w = [ECreateKubeconfig bucket key kms_context;
                       EWriteManifest manifest manifest_file;
                       ERunCommand create_command]
  /\ Status (final_report ev ctx w) = SUCCESS
  /\ BodyPhysicalResourceId (final_report ev ctx w) = self_link
  /\ exists payload,
       build_output (VDict d) = OK (VDict payload)
       /\ dict_get "selfLink" payload = Some self_link
       /\ Data (final_report ev ctx w) = Some (VDict payload).
Proof.
  intros Hrt Hprep Hrun Hjs Hm Hsl Htruthy.
  destruct (build_output_copy d m Hm) as [Hbo Hk].
  set (payload := fold_left (copy_key m) output_keys []) in *.
  assert (Hp : dict_get "selfLink" payload = Some self_link)
    by (rewrite (Hk "selfLink"); exact Hsl).
  rewrite final_report_report_of. unfold body_effects.
  rewrite (try_body_dispatch ev w _ _ _ _ Hprep).
  rewrite (dispatch_create ev w _ outp (VDict d) Hrt Hrun Hjs), Hbo.
  cbn [getitem]. rewrite Hp.
  cbn [report_of snd fst effects prepared_locals app send Status
       BodyPhysicalResourceId Data response_data physical_resource_id].
  rewrite Htruthy. repeat split. exists payload.
  repeat split; try assumption.
  destruct payload; [discriminate | reflexivity].
Qed.

Lemma create_success_witness :
  let ev := example_event "Create"
              (VDict [("metadata", VDict [("name", VStr "x")])])
              "s3://b/k" None in
  body_effects ev example_world
  = [ECreateKubeconfig "b" "k" (VDict [("QSContext", VStr "ctx")]);
     EWriteManifest (VDict [("metadata", VDict [("name", VStr "x")])])
       manifest_file;
     ERunCommand create_command]
  /\ Status (final_report ev example_context example_world) = SUCCESS
  /\ BodyPhysicalResourceId (final_report ev example_context example_world)
     = VStr "/api/v1/x"
  /\ exists payload,
       build_output
         (VDict [("kind", VStr "Pod");
                 ("metadata", VDict [("uid", VStr "u1");
                                     ("selfLink", VStr "/api/v1/x");
                                     ("name", VStr "x")])])
       = OK (VDict payload)
       /\ dict_get "selfLink" payload = Some (VStr "/api/v1/x")
       /\ Data (final_report ev example_context example_world)
          = Some (VDict payload).
Proof.
  intros ev.
  apply (create_success ev example_context example_world "b" "k" "json"
           (VDict [("QSContext", VStr "ctx")])
           (VDict [("metadata", VDict [("name", VStr "x")])])
           (VStr "/api/v1/x")
           [("kind", VStr "Pod");
            ("metadata", VDict [("uid", VStr "u1");
                                ("selfLink", VStr "/api/v1/x");
                                ("name", VStr "x")])]
           [("uid", VStr "u1"); ("selfLink", VStr "/api/v1/x");
            ("name", VStr "x")]);
    try reflexivity.
  unfold prepared. repeat split. discriminate.
Defined.

(** X21.  A Create whose command succeeds but prints an object without
    selfLink is reported FAILED with the KeyError as reason, although the
    object was created; the physical id stays the one the request
    carried, and the fields that were extracted are still sent as
    payload. *)
Theorem create_without_self_link (ev : event) (ctx : context) (w : world)
  (bucket key outp : string) (kms_context manifest : value) (d m : dict) :
  RequestType ev = "Create" ->
  prepared ev w bucket key kms_context manifest ->
  run_command w create_command = OK outp ->
  json_loads w outp = OK (VDict d) ->
  dict_get "metadata" d = Some (VDict m) ->
  dict_get "selfLink" m = None ->
  body_effects ev w = [ECreateKubeconfig bucket key kms_context;
                       EWriteManifest manifest manifest_file;
                       ERunCommand create_command]
  /\ Status (final_report ev ctx w) = FAILED
  /\ Reason (final_report ev ctx w) = StrOf (KeyError "selfLink")
  /\ BodyPhysicalResourceId (final_report ev ctx w) = carried_id ev ctx
  /\ exists payload,
       build_output (VDict d) = OK (VDict payload)
       /\ Data (final_report ev ctx w)
          = match payload with
            | [] => None
            | _ => Some (VDict payload)
            end.
Proof.
  intros Hrt Hprep Hrun Hjs Hm Hsl.
  destruct (build_output_copy d m Hm) as [Hbo Hk].
  set (payload := fold_left (copy_key m) output_keys []) in *.
  assert (Hp : dict_get "selfLink" payload = None)
    by (rewrite (Hk "selfLink"); exact Hsl).
  rewrite final_report_report_of. unfold body_effects.
  rewrite (try_body_dispatch ev w _ _ _ _ Hprep).
  rewrite (dispatch_create ev w _ outp (VDict d) Hrt Hrun Hjs), Hbo.
  cbn [getitem]. rewrite Hp.
  cbn [report_of snd fst effects prepared_locals app
       response_data physical_resource_id].
  split; [reflexivity|]. split; [reflexivity|]. split; [reflexivity|].
  split; [apply send_request_id|].
  exists payload. split; [reflexivity|].
  destruct payload; reflexivity.
Qed.

Lemma create_without_self_link_witness :
  let ev := example_event "Create" (VDict [("metadata", VDict [])])
              "s3://b/k" None in
  let w := {| environ_PATH := Some "/usr/bin";
              create_kubeconfig := fun _ _ _ => OK tt;
              run_command := fun _ => OK "json";
              json_loads := fun _ =>
                OK (VDict [("metadata", VDict [("uid", VStr "u1")])]) |} in
  body_effects ev w
  = [ECreateKubeconfig "b" "k" (VDict [("QSContext", VStr "ctx")]);
     EWriteManifest
       (VDict [("metadata", VDict [("generateName", VStr "cfn-mystack-")])])
       manifest_file;
     ERunCommand create_command]
  /\ Status (final_report ev example_context w) = FAILED
  /\ Reason (final_report ev example_context w) = StrOf (KeyError "selfLink")
  /\ BodyPhysicalResourceId (final_report ev example_context w)
     = carried_id ev example_context
  /\ exists payload,
       build_output (VDict [("metadata", VDict [("uid", VStr "u1")])])
       = OK (VDict payload)
       /\ Data (final_report ev example_context w)
          = match payload with
            | [] => None
            | _ => Some (VDict payload)
            end.
Proof.
  intros ev w.
  apply (create_without_self_link ev example_context w "b" "k" "json"
           (VDict [("QSContext", VStr "ctx")])
           (VDict [("metadata",
                    VDict [("generateName", VStr "cfn-mystack-")])])
           [("metadata", VDict [("uid", VStr "u1")])]
           [("uid", VStr "u1")]);
    try reflexivity.
  unfold prepared. repeat split. discriminate.
Defined.

Ltac failed_id_leaf ev :=
  intros Hst; try discriminate Hst;
  unfold send, carried_id; cbn [BodyPhysicalResourceId];
  try match goal with
      | H : PhysicalResourceId ev = _ |- _ => rewrite H
      end;
  cbn [truthy];
  try match goal with
      | |- context [nonempty ?x] => destruct (nonempty x)
      end;
  reflexivity.

Lemma failed_report_id (ev : event) (ctx : context) (w : world) :
  Status (final_report ev ctx w) = FAILED ->
  BodyPhysicalResourceId (final_report ev ctx w) = carried_id ev ctx.
Proof.
  apply (final_report_wp ev ctx w
    (fun body _ =>
       Status body = FAILED ->
       BodyPhysicalResourceId body = carried_id ev ctx)).
  unfold try_body, initial_locals. repeat wp_split. all: wp_run.
  all: cbn [effects app negb response_data physical_resource_id] in *.
  all: try solve [request_type_clash].
  all: failed_id_leaf ev.
Qed.

(** X22.  A failure never changes the physical id: every FAILED report of
    the main path carries the id of the request, or the log stream name
    if the request has none; this holds for a Create as well. *)
Theorem failure_keeps_physical_id (ev : event) (ctx : context) (w : world) :
  Status (final_report ev ctx w) = FAILED ->
  BodyPhysicalResourceId (final_report ev ctx w) = carried_id ev ctx.
Proof. exact (failed_report_id ev ctx w). Qed.

Lemma failure_keeps_physical_id_witness :
  let ev := example_event "Create" (VDict [("metadata", VDict [])])
              "s3://b/k" None in
  let w := {| environ_PATH := Some "/usr/bin";
              create_kubeconfig := fun _ _ _ => OK tt;
              run_command := fun _ => Raise (Exception "no such cluster");
              json_loads := fun _ => Raise (ValueError "json") |} in
  BodyPhysicalResourceId (final_report ev example_context w)
  = carried_id ev example_context.
Proof.
  intros ev w.
  apply (failure_keeps_physical_id ev example_context w). reflexivity.
Defined.

(** The no-op Delete, from the dispatch. *)
Lemma dispatch_delete_fallback ev w s p :
  RequestType ev = "Delete" ->
  physical_resource_id s = VStr p ->
  fallback_id_shape p = true ->
  dispatch ev w s = (OK tt, s).
Proof.
  intros Hrt Hp Hshape. apply wp_eq. unfold dispatch. rewrite Hrt.
  cbn [String.eqb Ascii.eqb Bool.eqb]. wp_run.
  rewrite Hp, (fallback_id_shape_search p Hshape). wp_run.
  cbn [negb]. wp_run. reflexivity.
Qed.

(** X23.  A failed Create leaves nothing to delete: when a Create without
    physical id is reported FAILED and the log stream name has the
    fallback-id shape, the Delete that carries the id of that report runs
    no command, once its preparation has succeeded, and is reported
    SUCCESS. *)
Theorem failed_create_then_delete (create delete : event)
  (ctx ctx' : context) (w w' : world) (p bucket key : string)
  (kms_context manifest : value) :
  PhysicalResourceId create = None ->
  Status (final_report create ctx w) = FAILED ->
  fallback_id_shape (log_stream_name ctx) = true ->
  RequestType delete = "Delete" ->
  BodyPhysicalResourceId (final_report create ctx w) = VStr p ->
  PhysicalResourceId delete = Some p ->
  prepared delete w' bucket key kms_context manifest ->
  commands (body_effects delete w') = []
  /\ Status (final_report delete ctx' w') = SUCCESS
  /\ Data (final_report delete ctx' w') = None.
Proof.
  intros Hnone Hfailed Hshape Hrt Hid Hp Hprep.
  assert (Hlog : p = log_stream_name ctx).
  { rewrite (failed_report_id create ctx w Hfailed) in Hid.
    unfold carried_id in Hid. rewrite Hnone in Hid. congruence. }
  subst p.
  rewrite final_report_report_of. unfold body_effects.
  rewrite (try_body_dispatch delete w' _ _ _ _ Hprep).
  rewrite (dispatch_delete_fallback delete w' _ (log_stream_name ctx) Hrt);
    [ | unfold prepared_locals, request_id_value; rewrite Hp; reflexivity
      | exact Hshape ].
  repeat split.
Qed.

Lemma failed_create_then_delete_witness :
  let create := example_event "Create" (VDict [("metadata", VDict [])])
                  "s3://b/k" None in
  let delete := example_event "Delete" (VDict [("metadata", VDict [])])
                  "s3://b/k" (Some example_fallback_id) in
  let w := {| environ_PATH := Some "/usr/bin";
              create_kubeconfig := fun _ _ _ => OK tt;
              run_command := fun _ => Raise (Exception "no such cluster");
              json_loads := fun _ => Raise (ValueError "json") |} in
  commands (body_effects delete example_world) = []
  /\ Status (final_report delete example_context example_world) = SUCCESS
  /\ Data (final_report delete example_context example_world) = None.
Proof.
  intros create delete w.
  apply (failed_create_then_delete create delete example_context
           example_context w example_world example_fallback_id "b" "k"
           (VDict [("QSContext", VStr "ctx")])
           (VDict [("metadata",
                    VDict [("name",
                            VStr "[$LATEST]0123456789abcdef0123456789abcdef")])]));
    try reflexivity.
  unfold prepared. repeat split. discriminate.
Defined.

(** ** The watchdog: runs in which the handler returns *)

Lemma pending_effects_main_thread (ev : event) (ctx : context) (w : world) :
  pending_effects (main_thread ev ctx w) = lambda_handler ev ctx w.
Proof.
  unfold main_thread, lambda_handler, pending_effects.
  rewrite flat_map_app. f_equal.
  induction (body_effects ev w) as [|e l IH]; [reflexivity|].
  simpl. rewrite IH. reflexivity.
Qed.

Section Watchdog.
Variables (ev : event) (ctx : context) (w : world).

(** Unless the timer has fired, what is done and what is left to do are
    together the effects of the handler without watchdog. *)
Definition quiet (c : config) : Prop :=
  timer c = Fired
  \/ done c ++ pending_effects (todo c) = lambda_handler ev ctx w.

Lemma step_quiet c1 c2 : step ev ctx c1 c2 -> quiet c1 -> quiet c2.
Proof.
  unfold quiet. destruct 1 as [e rest t d | rest t d | td d]; simpl.
  - intros [H | H]; [left; exact H | right].
    rewrite <- app_assoc. exact H.
  - intros [H | H]; [left; rewrite H; reflexivity | right; exact H].
  - intros _. left. reflexivity.
Qed.

Lemma steps_quiet c1 c2 : steps ev ctx c1 c2 -> quiet c1 -> quiet c2.
Proof.
  induction 1 as [c | c1 c2 c3 H12 H23 IH]; [auto|].
  intros H. apply IH. exact (step_quiet _ _ H12 H).
Qed.

(** While the timer waits, the cancel is still to come. *)
Definition cancel_ahead (c : config) : Prop :=
  timer c = Waiting -> In ACancel (todo c).

Lemma step_cancel_ahead c1 c2 :
  step ev ctx c1 c2 -> cancel_ahead c1 -> cancel_ahead c2.
Proof.
  unfold cancel_ahead. destruct 1 as [e rest t d | rest t d | td d]; simpl.
  - intros H Ht. destruct (H Ht) as [E | E]; [discriminate | exact E].
  - intros _ Ht. destruct t; discriminate.
  - intros _ Ht. discriminate.
Qed.

Lemma steps_cancel_ahead c1 c2 :
  steps ev ctx c1 c2 -> cancel_ahead c1 -> cancel_ahead c2.
Proof.
  induction 1 as [c | c1 c2 c3 H12 H23 IH]; [auto|].
  intros H. apply IH. exact (step_cancel_ahead _ _ H12 H).
Qed.

Lemma start_quiet : quiet (start ev ctx w).
Proof.
  right. unfold start. simpl. apply pending_effects_main_thread.
Qed.

Lemma start_cancel_ahead : cancel_ahead (start ev ctx w).
Proof.
  intros _. unfold start, main_thread. simpl.
  apply in_or_app. right. left. reflexivity.
Qed.
End Watchdog.

(** X24.  A run in which the handler returns and the timer was cancelled
    has done exactly what the handler does without watchdog: the effects
    of the body in their order, then the one report. *)
Theorem run_without_fire (ev : event) (ctx : context) (w : world)
  (c : config) :
  steps ev ctx (start ev ctx w) c ->
  returned c ->
  timer c = Cancelled ->
  done c = lambda_handler ev ctx w.
Proof.
  intros Hrun Hret Ht.
  destruct (steps_quiet ev ctx w _ _ Hrun (start_quiet ev ctx w)) as [H | H].
  - congruence.
  - unfold returned in Hret. rewrite Hret in H. simpl in H.
    rewrite app_nil_r in H. exact H.
Qed.

Lemma main_thread_run (ev : event) (ctx : context) (acts : list action) :
  forall t d,
    steps ev ctx {| todo := acts; timer := t; done := d |}
                 {| todo := [];
                    timer := if existsb (fun a => match a with
                                                  | ACancel => true
                                                  | ADo _ => false
                                                  end) acts
                             then cancel t else t;
                    done := d ++ pending_effects acts |}.
Proof.
  induction acts as [|a rest IH]; intros t d.
  - simpl. rewrite app_nil_r. apply steps_refl.
  - destruct a as [e|].
    + eapply steps_step; [apply step_do|].
      specialize (IH t (d ++ [e])). simpl in IH |- *.
      rewrite <- app_assoc in IH. exact IH.
    + eapply steps_step; [apply step_cancel|].
      specialize (IH (cancel t) d). simpl in IH |- *.
      destruct (existsb _ rest); [|exact IH].
      replace (cancel (cancel t)) with (cancel t) in IH
        by (destruct t; reflexivity).
      exact IH.
Qed.

Lemma run_without_fire_witness :
  let ev := example_event "Create"
              (VDict [("metadata", VDict [("name", VStr "x")])])
              "s3://b/k" None in
  done {| todo := []; timer := Cancelled;
          done := lambda_handler ev example_context example_world |}
  = lambda_handler ev example_context example_world.
Proof.
  intros ev.
  apply (run_without_fire ev example_context example_world
           {| todo := []; timer := Cancelled;
              done := lambda_handler ev example_context example_world |}).
  - exact (main_thread_run ev example_context
             (main_thread ev example_context example_world) Waiting []).
  - reflexivity.
  - reflexivity.
Defined.

(** X25.  In every run in which the handler returns, the timer is no
    longer waiting, and the number of reports sent is one if it was
    cancelled and two if it had fired; it is never zero. *)
Theorem reports_when_returned (ev : event) (ctx : context) (w : world)
  (c : config) :
  steps ev ctx (start ev ctx w) c ->
  returned c ->
  (timer c = Cancelled /\ count_sends (done c) = 1%nat)
  \/ (timer c = Fired /\ count_sends (done c) = 2%nat).
Proof.
  intros Hrun Hret.
  pose proof (steps_cancel_ahead ev ctx _ _ Hrun
                (start_cancel_ahead ev ctx w)) as Hc.
  pose proof (steps_sends ev ctx _ _ Hrun) as Hn.
  unfold returned in Hret. unfold cancel_ahead in Hc.
  rewrite Hret in Hc, Hn. unfold start in Hn. simpl in Hn.
  rewrite pending_sends_main_thread in Hn.
  unfold pending_sends, count_sends in *. simpl in Hn.
  destruct (timer c) eqn:Ht.
  - destruct (Hc eq_refl).
  - right. split; [reflexivity|]. simpl in Hn. lia.
  - left. split; [reflexivity|]. simpl in Hn. lia.
Qed.

Lemma reports_when_returned_witness :
  let ev := example_event "Create"
              (VDict [("metadata", VDict [("name", VStr "x")])])
              "s3://b/k" None in
  let c := {| todo := []; timer := Cancelled;
              done := lambda_handler ev example_context example_world |} in
  (timer c = Cancelled /\ count_sends (done c) = 1%nat)
  \/ (timer c = Fired /\ count_sends (done c) = 2%nat).
Proof.
  intros ev c.
  apply (reports_when_returned ev example_context example_world c).
  - exact (main_thread_run ev example_context
             (main_thread ev example_context example_world) Waiting []).
  - reflexivity.
Defined.

(** ** What the fallback-id expression accepts *)

Lemma eat_class_split p n : forall s rest,
  eat_class p n s = Some rest ->
  exists pre, s = (pre ++ rest)%string
              /\ String.length pre = n
              /\ forall rest', eat_class p n (pre ++ rest')%string = Some rest'.
Proof.
  induction n as [|n IH]; intros s rest H.
  - simpl in H. assert (s = rest) by congruence. subst.
    exists EmptyString. repeat split.
  - simpl in H. destruct s as [|c r]; [discriminate|].
    destruct (p c) eqn:Hc; [|discriminate].
    destruct (IH _ _ H) as (pre & E & L & K).
    exists (String c pre). repeat split.
    + simpl. rewrite E. reflexivity.
    + simpl. rewrite L. reflexivity.
    + intros rest'. simpl. rewrite Hc. apply K.
Qed.

Lemma eat_lit_split lit : forall s rest,
  eat_lit lit s = Some rest ->
  s = (lit ++ rest)%string
  /\ forall rest', eat_lit lit (lit ++ rest')%string = Some rest'.
Proof.
  induction lit as [|a lit IH]; intros s rest H.
  - simpl in H. split; [simpl; congruence | reflexivity].
  - simpl in H. destruct s as [|c r]; [discriminate|].
    destruct (Ascii.eqb a c) eqn:Hc; [|discriminate].
    apply Ascii.eqb_eq in Hc. subst c.
    destruct (IH _ _ H) as (E & K). split.
    + simpl. rewrite E. reflexivity.
    + intros rest'. simpl. rewrite Ascii.eqb_refl. apply K.
Qed.

(** The expression consumes a prefix of 52 characters, whatever follows. *)
Lemma eat_fallback_id_split s rest :
  eat_fallback_id s = Some rest ->
  exists pre, s = (pre ++ rest)%string
              /\ String.length pre = 52%nat
              /\ forall rest', eat_fallback_id (pre ++ rest')%string
                               = Some rest'.
Proof.
  unfold eat_fallback_id. intros H.
  destruct (eat_class is_ascii_digit 4 s) as [s1|] eqn:H1; [|discriminate].
  cbn [obind] in H.
  destruct (eat_lit "/" s1) as [s2|] eqn:H2; [|discriminate].
  cbn [obind] in H.
  destruct (eat_class is_ascii_digit 2 s2) as [s3|] eqn:H3; [|discriminate].
  cbn [obind] in H.
  destruct (eat_lit "/" s3) as [s4|] eqn:H4; [|discriminate].
  cbn [obind] in H.
  destruct (eat_class is_ascii_digit 2 s4) as [s5|] eqn:H5; [|discriminate].
  cbn [obind] in H.
  destruct (eat_lit "/" s5) as [s6|] eqn:H6; [|discriminate].
  cbn [obind] in H.
  destruct (eat_lit "[$LATEST]" s6) as [s7|] eqn:H7; [|discriminate].
  cbn [obind] in H.
  destruct (eat_class_split _ _ _ _ H1) as (p1 & E1 & L1 & K1).
  destruct (eat_lit_split _ _ _ H2) as (E2 & K2).
  destruct (eat_class_split _ _ _ _ H3) as (p3 & E3 & L3 & K3).
  destruct (eat_lit_split _ _ _ H4) as (E4 & K4).
  destruct (eat_class_split _ _ _ _ H5) as (p5 & E5 & L5 & K5).
  destruct (eat_lit_split _ _ _ H6) as (E6 & K6).
  destruct (eat_lit_split _ _ _ H7) as (E7 & K7).
  destruct (eat_class_split _ _ _ _ H) as (p8 & E8 & L8 & K8).
  exists (p1 ++ "/" ++ p3 ++ "/" ++ p5 ++ "/" ++ "[$LATEST]" ++ p8)%string.
  repeat split.
  - subst s s1 s2 s3 s4 s5 s6 s7.
    repeat rewrite string_app_assoc. reflexivity.
  - repeat rewrite string_length_app. rewrite L1, L3, L5, L8. reflexivity.
  - intros rest'.
    repeat rewrite string_app_assoc.
    rewrite K1. cbn [obind]. rewrite K2. cbn [obind].
    rewrite K3. cbn [obind]. rewrite K4. cbn [obind].
    rewrite K5. cbn [obind]. rewrite K6. cbn [obind].
    rewrite K7. cbn [obind]. apply K8.
Qed.

(** X26.  What the Delete branch takes for a fallback id: the search
    succeeds exactly on the strings of the fallback-id shape and on those
    followed by one line feed; a string of the shape has 52 characters. *)
Theorem fallback_id_search_iff (s : string) :
  (re_search_fallback_id (VStr s) = OK true
   <-> fallback_id_shape s = true
       \/ exists s0, s = (s0 ++ line_feed)%string
                     /\ fallback_id_shape s0 = true)
  /\ (fallback_id_shape s = true -> String.length s = 52%nat).
Proof.
  unfold re_search_fallback_id, fallback_id_shape. split; [split|].
  - destruct (eat_fallback_id s) as [rest|] eqn:He; [|discriminate].
    intros H. assert (Hor : String.eqb rest EmptyString
                            || String.eqb rest line_feed = true)
      by congruence.
    apply orb_true_iff in Hor. destruct Hor as [Hr | Hr].
    + left. exact Hr.
    + right. apply String.eqb_eq in Hr. subst rest.
      destruct (eat_fallback_id_split _ _ He) as (pre & E & _ & K).
      exists pre. split; [exact E|].
      specialize (K EmptyString). rewrite string_app_empty in K.
      rewrite K. reflexivity.
    - intros [H | (s0 & E & H)].
    + destruct (eat_fallback_id s); [|discriminate]. rewrite H. reflexivity.
    + destruct (eat_fallback_id s0) as [rest|] eqn:He; [|discriminate].
      apply String.eqb_eq in H. subst rest.
      destruct (eat_fallback_id_split _ _ He) as (pre & E0 & _ & K).
      rewrite string_app_empty in E0. subst s0 s.
      rewrite K. reflexivity.
  - destruct (eat_fallback_id s) as [rest|] eqn:He; [|discriminate].
    intros H. apply String.eqb_eq in H. subst rest.
    destruct (eat_fallback_id_split _ _ He) as (pre & E & L & _).
    rewrite string_app_empty in E. subst s. exact L.
Qed.
(** ** Where a report's payload and a report of success come from *)

Ltac payload_leaf :=
  unfold send; cbn [Data]; intros d Hd;
  try discriminate Hd;
  match type of Hd with
  | match ?rd with _ => _ end = _ =>
      assert (rd = d)
        by (destruct rd as [| | | | | |[|? ?]]; congruence);
      subst
  end;
  repeat match goal with
         | H : String.eqb (RequestType _) _ = true |- _ =>
             apply String.eqb_eq in H
         end;
  first
    [ left; split; [assumption|];
      do 2 eexists; repeat split; eassumption
    | right; split; [assumption|];
      do 2 eexists; repeat split; eassumption ].

(** X27.  A report carries a payload only for a Create or an Update, and
    the payload is always what [build_output] extracts from the parsed
    output of that request's command; a Delete, a request of another
    type and a request that fails before its command never carry one. *)
Theorem report_payload_origin (ev : event) (ctx : context) (w : world)
  (d : value) :
  Data (final_report ev ctx w) = Some d ->
  (RequestType ev = "Create"
   /\ exists outp r, run_command w create_command = OK outp
                     /\ json_loads w outp = OK r
                     /\ build_output r = OK d)
  \/ (RequestType ev = "Update"
      /\ exists outp r, run_command w apply_command = OK outp
                        /\ json_loads w outp = OK r
                        /\ build_output r = OK d).
Proof.
  revert d.
  apply (final_report_wp ev ctx w
    (fun body _ =>
       forall d, Data body = Some d ->
       (RequestType ev = "Create"
        /\ exists outp r, run_command w create_command = OK outp
                          /\ json_loads w outp = OK r
                          /\ build_output r = OK d)
       \/ (RequestType ev = "Update"
           /\ exists outp r, run_command w apply_command = OK outp
                             /\ json_loads w outp = OK r
                             /\ build_output r = OK d))).
  unfold try_body, initial_locals. repeat wp_split. all: wp_run.
  all: cbn [effects app negb response_data physical_resource_id] in *.
  all: try solve [request_type_clash].
  all: payload_leaf.
Qed.

Lemma report_payload_origin_witness :
  let ev := example_event "Create"
              (VDict [("metadata", VDict [("name", VStr "x")])])
              "s3://b/k" None in
  let d := VDict [("uid", VStr "u1"); ("selfLink", VStr "/api/v1/x");
                  ("name", VStr "x")] in
  (RequestType ev = "Create"
   /\ exists outp r, run_command example_world create_command = OK outp
                     /\ json_loads example_world outp = OK r
                     /\ build_output r = OK d)
  \/ (RequestType ev = "Update"
      /\ exists outp r, run_command example_world apply_command = OK outp
                        /\ json_loads example_world outp = OK r
                        /\ build_output r = OK d).
Proof.
  intros ev d.
  apply (report_payload_origin ev example_context example_world d).
  reflexivity.
Defined.

Ltac prepared_leaf :=
  unfold prepared;
  split; [|split; [|split; [|split]]];
  [ intros E;
    match goal with
    | H : match environ_PATH _ with _ => _ end = _ |- _ =>
        rewrite E in H; discriminate H
    end
  | match goal with
    | H : (if ?b then _ else _) = OK _ |- ?b = true =>
        destruct b; [reflexivity | discriminate H]
    end
  | eassumption
  | eassumption
  | try match goal with
        | H : PhysicalResourceId _ = _ |- _ => rewrite H
        end;
    eassumption ].

Ltac success_parts :=
  do 4 eexists; split; [prepared_leaf|];
  split; [|split]; intros Hrt; try congruence;
  first
    [ do 4 eexists; split; [|split; [|split]]; eassumption
    | do 3 eexists; split; [|split]; eassumption
    | eexists; split; [reflexivity|];
      first [ left; eassumption | right; eexists; eassumption ] ].

Ltac success_leaf :=
  intros Hst;
  first
    [ discriminate Hst
    | match goal with
      | H : re_search_fallback_id VNone = OK _ |- _ =>
          unfold re_search_fallback_id in H; discriminate H
      end
    | repeat match goal with u : unit |- _ => destruct u end;
      repeat match goal with
             | H : String.eqb (RequestType _) _ = true |- _ =>
                 apply String.eqb_eq in H
             | H : String.eqb (RequestType _) _ = false |- _ =>
                 apply String.eqb_neq in H
             end;
      try match goal with
          | H : negb ?b = false |- _ =>
              destruct b; [clear H | discriminate H]
          end;
      success_parts ].

(** X28.  SUCCESS is reported only when every step succeeded: the
    preparation did; for a Create the command ran, its output parsed,
    and the payload has a selfLink; for an Update the command ran and
    its output parsed; a Delete had a physical id, and either that id is
    taken for a fallback id or the delete command ran. *)
Theorem success_sound (ev : event) (ctx : context) (w : world) :
  Status (final_report ev ctx w) = SUCCESS ->
  exists bucket key kms_context manifest,
    prepared ev w bucket key kms_context manifest
    /\ (RequestType ev = "Create" ->
        exists outp r d link,
          run_command w create_command = OK outp
          /\ json_loads w outp = OK r
          /\ build_output r = OK d
          /\ getitem d "selfLink" = OK link)
    /\ (RequestType ev = "Update" ->
        exists outp r d,
          run_command w apply_command = OK outp
          /\ json_loads w outp = OK r
          /\ build_output r = OK d)
    /\ (RequestType ev = "Delete" ->
        exists p,
          PhysicalResourceId ev = Some p
          /\ (re_search_fallback_id (VStr p) = OK true
              \/ exists outp, run_command w delete_command = OK outp)).
Proof.
  apply (final_report_wp ev ctx w
    (fun body _ =>
       Status body = SUCCESS ->
       exists bucket key kms_context manifest,
         prepared ev w bucket key kms_context manifest
         /\ (RequestType ev = "Create" ->
             exists outp r d link,
               run_command w create_command = OK outp
               /\ json_loads w outp = OK r
               /\ build_output r = OK d
               /\ getitem d "selfLink" = OK link)
         /\ (RequestType ev = "Update" ->
             exists outp r d,
               run_command w apply_command = OK outp
               /\ json_loads w outp = OK r
               /\ build_output r = OK d)
         /\ (RequestType ev = "Delete" ->
             exists p,
               PhysicalResourceId ev = Some p
               /\ (re_search_fallback_id (VStr p) = OK true
                   \/ exists outp, run_command w delete_command = OK outp)))).
  unfold try_body, initial_locals. repeat wp_split. all: wp_run.
  all: cbn [effects app negb response_data physical_resource_id] in *.
  all: try solve [request_type_clash].
  all: success_leaf.
Qed.

Lemma success_sound_witness :
  let ev := example_event "Delete" (VDict [("metadata", VDict [])])
              "s3://b/k" (Some example_fallback_id) in
  exists bucket key kms_context manifest,
    prepared ev example_world bucket key kms_context manifest
    /\ (RequestType ev = "Create" ->
        exists outp r d link,
          run_command example_world create_command = OK outp
          /\ json_loads example_world outp = OK r
          /\ build_output r = OK d
          /\ getitem d "selfLink" = OK link)
    /\ (RequestType ev = "Update" ->
        exists outp r d,
          run_command example_world apply_command = OK outp
          /\ json_loads example_world outp = OK r
          /\ build_output r = OK d)
    /\ (RequestType ev = "Delete" ->
        exists p,
          PhysicalResourceId ev = Some p
          /\ (re_search_fallback_id (VStr p) = OK true
              \/ exists outp,
                   run_command example_world delete_command = OK outp)).
Proof.
  intros ev.
  apply (success_sound ev example_context example_world). reflexivity.
Defined.
